(** * emu-log: scheduler, resolvers and batch runner of [emu_log.go]

    A shallow embedding of the single source file [src/emu_log.go] and the
    properties of its scheduler (the loop body of [main]), its two resolvers
    ([Bureau.TrainNo] for bureaus "H" and "P"), its batch runner
    ([iterVehicles]) and the two SQL statements it runs against SQLite. *)

From Stdlib Require Import ZArith Lia List Bool Ascii String.
From Stdlib Require Import OrdersEx Sorted.
From stdpp Require Import base option list gmap strings pretty.

Local Open Scope Z_scope.

(** ** The part of Go's [time] package the scheduler uses *)

Module GoTime.

(** [time.Duration]: a count of nanoseconds. *)
Definition Duration := Z.

Definition Nanosecond : Duration := 1.
Definition Second : Duration := 1000000000 * Nanosecond.
Definition Minute : Duration := 60 * Second.
Definition Hour : Duration := 60 * Minute.

(** [time.Time]: the wall-clock instant, in nanoseconds since the Unix
    epoch.  The monotonic reading [time.Now] attaches is left out: [main]
    compares [now] only with values derived from [time.Date], which carry
    none, and then [Before]/[After] compare wall-clock instants. *)
Definition Time := Z.

Definition unixSec (t : Time) : Z := t / Second.
Definition nsecOf (t : Time) : Z := t mod Second.

Definition Add (t : Time) (d : Duration) : Time := t + d.
Definition Before (t u : Time) : bool := t <? u.
Definition After (t u : Time) : bool := u <? t.

(** Seconds from the zero time (1 January of year 1, UTC) to the Unix
    epoch; [Truncate] rounds relative to the zero time. *)
Definition unixToInternal : Z :=
  (1969 * 365 + 1969 / 4 - 1969 / 100 + 1969 / 400) * 86400.

Definition Truncate (t : Time) (d : Duration) : Time :=
  if d <=? 0 then t
  else t - ((t + unixToInternal * Second) mod d).

(** A zone transition: from instant [when] (Unix seconds) on, local time
    is UTC + [offset] seconds. *)
Record zoneTrans := { when : Z; offset : Z }.

(** [time.Location]: the offset in force before the first transition and
    the transitions in ascending order of [when]. *)
Record Location := { zone0 : Z; tx : list zoneTrans }.

Definition alpha : Z := - 2 ^ 63.
Definition omega : Z := 2 ^ 63 - 1.

(** [Location.lookup]: offset in force at [sec] and the interval
    [start, end) on which it is in force. *)
Fixpoint lookupTx (txs : list zoneTrans) (off start sec : Z) : Z * Z * Z :=
  match txs with
  | [] => (off, start, omega)
  | t :: rest =>
      if sec <? when t then (off, start, when t)
      else lookupTx rest (offset t) (when t) sec
  end.

Definition lookup (l : Location) (sec : Z) : Z * Z * Z :=
  lookupTx (tx l) (zone0 l) alpha sec.

Definition offsetAt (l : Location) (sec : Z) : Z := (lookup l sec).1.1.

(** [time.FixedZone]: a location without transitions. *)
Definition FixedZone (off : Z) : Location := {| zone0 := off; tx := [] |}.

(** Number of the local calendar day of [t] (days since 1970-01-01):
    what [t.Year()], [t.Month()], [t.Day()] determine in location [l]. *)
Definition localDay (l : Location) (t : Time) : Z :=
  (unixSec t + offsetAt l (unixSec t)) / 86400.

(** Nanoseconds since local midnight: what [t.Clock()] and
    [t.Nanosecond()] read in location [l]. *)
Definition timeOfDay (l : Location) (t : Time) : Duration :=
  ((unixSec t + offsetAt l (unixSec t)) mod 86400) * Second + nsecOf t.

(** [time.Date(y, m, d, 0, 0, 0, 0, l)] for the calendar day numbered
    [d]: the instant whose wall clock in [l] reads 00:00:00 on that day.
    As in the library, the offset is first looked up at the local reading
    taken as UTC, and looked up again when the corrected instant leaves
    the interval the first offset is valid on. *)
Definition Date (d : Z) (l : Location) : Time :=
  let unix := d * 86400 in
  let '(off, start, end_) := lookup l unix in
  let unix' :=
    if off =? 0 then unix
    else
      let utc := unix - off in
      let off' :=
        if (utc <? start) || (end_ <=? utc) then offsetAt l utc else off in
      unix - off' in
  unix' * Second.

End GoTime.

(** ** The scheduler: constants and the loop body of [main] *)

Module Scheduler.
Import GoTime.

Definition day : Duration := 24 * Hour.
Definition repeatInterval : Duration := Hour.
Definition requestDelay : Duration := 4 * Second.
Definition startTime : Duration := 5 * Hour.
Definition endTime : Duration := 24 * Hour.

(** [today := time.Date(now.Year(), now.Month(), now.Day(), 0, 0, 0, 0,
    time.Local)], with [l] standing for [time.Local]. *)
Definition today (l : Location) (now : Time) : Time :=
  Date (localDay l now) l.

(** The value [main] assigns to [nextRun] in one iteration of its loop. *)
Definition nextRun (l : Location) (now : Time) : Time :=
  let today := today l now in
  if Before now (Add today startTime) then
    Add today startTime
  else if After now (Add today endTime) then
    Add today day
  else
    Add (Truncate now repeatInterval) repeatInterval.

(** The duration from midnight to the wall-clock reading [h]:[m]. *)
Definition clock (h m : Z) : Duration := h * Hour + m * Minute.

(** The instant at which a wall clock at [off] seconds east of UTC reads
    [h]:[m] on the calendar day numbered [d]. *)
Definition at_ (off d h m : Z) : Time :=
  (d * 86400 - off) * Second + clock h m.

(** Beijing time, the zone [checkLocalTimezone] expects. *)
Definition Beijing : Location := FixedZone (8 * 3600).

(** A location with one transition, from UTC-4 to UTC-5 at
    2026-11-01T06:00:00Z: the clock change of America/New_York in
    autumn 2026. *)
Definition fallBack : Location :=
  {| zone0 := -4 * 3600;
     tx := [ {| when := 20758 * 86400 + 6 * 3600; offset := -5 * 3600 |} ] |}.

(** The instant at which the clocks of Beijing read [h]:[m] on
    2026-10-30, the calendar day numbered 20756. *)
Definition beijing (h m : Z) : Time := at_ (8 * 3600) 20756 h m.

(** 2026-11-02T04:30:00Z: 23:30 on 2026-11-01 where [fallBack] applies,
    twenty-four and a half hours after that day's midnight. *)
Definition lateEvening : Time := (20759 * 86400 + 4 * 3600 + 1800) * Second.

End Scheduler.

Local Close Scope Z_scope.
Local Open Scope string_scope.

(** ** Values of Go the resolvers handle *)

Module Go.

(** [error]: [nil] or an error with its message. *)
Definition error := option string.

(** The result of a call that either returns or panics. *)
Inductive exec (A : Type) :=
| Returns (a : A)
| Panics (msg : string).
Arguments Returns {A} a.
Arguments Panics {A} msg.

(** What [encoding/json] stores in an [interface{}]. *)
#[local] Set Warnings "-register-all".
Inductive JsonValue :=
| JNull
| JBool (b : bool)
| JNumber (literal : string)
| JString (s : string)
| JArray (items : list JsonValue)
| JObject (fields : list (string * JsonValue)).

(** [JsonObject], a [map[string]interface{}]; the [nil] map reads as the
    empty one. *)
Abbreviation JsonObject := (gmap string JsonValue).

(** [m[k]]: the zero value, a [nil] interface, when [k] is absent. *)
Definition index (m : JsonObject) (k : string) : JsonValue :=
  default JNull (m !! k).

Definition dynamicType (v : JsonValue) : string :=
  match v with
  | JNull => "nil"
  | JBool _ => "bool"
  | JNumber _ => "float64"
  | JString _ => "string"
  | JArray _ => "[]interface {}"
  | JObject _ => "map[string]interface {}"
  end.

(** The single-result type assertion [v.(string)]. *)
Definition assertString (v : JsonValue) : exec string :=
  match v with
  | JString s => Returns s
  | _ =>
      Panics ("interface conversion: interface {} is "
              +:+ dynamicType v +:+ ", not string")
  end.

End Go.

(** ** The bureaus and their resolvers *)

Module Resolver.
Import Go.

(** The provider adapter [Info]: a network call, taken as the record and
    error the provider answers for each scan code. *)
Definition InfoFn := string -> JsonObject * error.

(** [Bureau].  [TrainNo] receives the bureau itself in the source and
    reads nothing of it but [Info]; here it receives that field.  The
    field [Scan] is never set nor called. *)
Record Bureau := {
  Code : string;
  Name : string;
  TrainNo : InfoFn -> string -> exec (string * string * error);
  Info : InfoFn
}.

(** The method call [b.TrainNo(b, qrCode)]. *)
Definition callTrainNo (b : Bureau) (qrCode : string)
  : exec (string * string * error) :=
  TrainNo b (Info b) qrCode.

Section Bureaus.
(** [time.Now().Format("2006-01-02")] at the time of the call. *)
Variable nowDate : string.
(** The answers of the two providers. *)
Variables infoH infoP : InfoFn.

(** [TrainNo] of bureau "H": the named results start as "" and [nil]. *)
Definition TrainNo_H (thisInfo : InfoFn) (pqCode : string)
  : exec (string * string * error) :=
  let '(info, err) := thisInfo pqCode in
  match err with
  | None =>
      match assertString (index info "trainName") with
      | Returns trainNo => Returns (trainNo, nowDate, None)
      | Panics msg => Panics msg
      end
  | Some _ => Returns ("", "", err)
  end.

(** [TrainNo] of bureau "P". *)
Definition TrainNo_P (thisInfo : InfoFn) (qrCode : string)
  : exec (string * string * error) :=
  let '(info, err) := thisInfo qrCode in
  match err with
  | None =>
      match assertString (index info "TrainnoId") with
      | Returns trainNo =>
          match assertString (index info "TrainnoDate") with
          | Returns date => Returns (trainNo, date, None)
          | Panics msg => Panics msg
          end
      | Panics msg => Panics msg
      end
  | Some _ => Returns ("", "", err)
  end.

Definition bureauH : Bureau :=
  {| Code := "H";
     Name := "中国铁路上海局集团有限公司";
     TrainNo := TrainNo_H;
     Info := infoH |}.

Definition bureauP : Bureau :=
  {| Code := "P";
     Name := "中国铁路北京局集团有限公司";
     TrainNo := TrainNo_P;
     Info := infoP |}.

Definition bureaus : list Bureau := [bureauH; bureauP].
End Bureaus.

(** The fields of the provider's record each resolver reads as a
    string. *)
Definition requiredFields (code : string) : list string :=
  if decide (code = "H") then ["trainName"]
  else if decide (code = "P") then ["TrainnoId"; "TrainnoDate"]
  else [].

(** A record is well-formed for a bureau when every required field is
    present and holds a string. *)
Definition wellFormed (code : string) (info : JsonObject) : Prop :=
  Forall (fun k => exists s, info !! k = Some (JString s))
         (requiredFields code).

End Resolver.

(** ** Storage: the two tables and the two statements run on them *)

Module Storage.
Import Go.

(** A row of [emu_log], the source's [LogRecord]. *)
Record LogRecord := { date : string; emuNo : string; trainNo : string }.

(** A row of [emu_qrcode] with SQLite's implicit [rowid]. *)
Record QrCodeRow := {
  rowid : Z;
  emu_no : string;
  emu_bureau : string;
  emu_qrcode : string
}.

#[global] Instance LogRecord_eq_dec : EqDecision LogRecord.
Proof. solve_decision. Defined.

(** The database file.  A table that does not exist yet reads as empty:
    [checkDatabase] creates both with [CREATE TABLE IF NOT EXISTS]. *)
Record Db := { tbl_emu_qrcode : list QrCodeRow; tbl_emu_log : list LogRecord }.

(** [UNIQUE(date, emu_no, train_no)] on [emu_log]. *)
Definition unique_log (tbl : list LogRecord) : Prop := NoDup tbl.

(** [INSERT OR IGNORE INTO emu_log VALUES (?, ?, ?)]: a row that would
    break the uniqueness constraint is skipped, without an error. *)
Definition insertOrIgnore (tbl : list LogRecord) (r : LogRecord)
  : list LogRecord :=
  if decide (r ∈ tbl) then tbl else (tbl ++ [r])%list.

(** Byte-wise comparison of SQLite's BINARY collation. *)
Definition cmp (a b : string) : comparison := String_as_OT.compare a b.

(** One step of GROUP BY emu_no / ORDER BY emu_no ASC with MIN(rowid):
    [groups] holds one row per vehicle, ascending; the bare columns of a
    group are those of its row of least [rowid]. *)
Fixpoint groupInsert (r : QrCodeRow) (groups : list QrCodeRow)
  : list QrCodeRow :=
  match groups with
  | [] => [r]
  | g :: rest =>
      match cmp (emu_no r) (emu_no g) with
      | Lt => r :: groups
      | Eq => (if (rowid r <? rowid g)%Z then r else g) :: rest
      | Gt => g :: groupInsert r rest
      end
  end.

Definition groupByEmuNo (rows : list QrCodeRow) : list QrCodeRow :=
  foldr groupInsert [] rows.

(** A row of the result: [emu_no], [emu_qrcode], [MIN(rowid)]. *)
Definition ResultRow : Type := string * string * Z.

(** SELECT emu_no, emu_qrcode, MIN(rowid) FROM emu_qrcode
    WHERE emu_bureau = ? GROUP BY emu_no ORDER BY emu_no ASC *)
Definition selectVehicles (tbl : list QrCodeRow) (code : string)
  : list ResultRow :=
  (fun g => (emu_no g, emu_qrcode g, rowid g)) <$>
    groupByEmuNo (filter (fun r => emu_bureau r = code) tbl).

(** Number of rows of the log table equal to [r]. *)
Definition matching (r : LogRecord) (tbl : list LogRecord) : nat :=
  length (filter (fun x => x = r) tbl).

(** Order of the vehicles in the result of the selection. *)
Definition before (g1 g2 : QrCodeRow) : Prop :=
  String_as_OT.lt (emu_no g1) (emu_no g2).

(** A row is covered by a list of groups when some group has its vehicle
    and a [rowid] that is not greater. *)
Definition covers (groups : list QrCodeRow) (x : QrCodeRow) : Prop :=
  exists g, g ∈ groups /\ emu_no g = emu_no x /\ (rowid g <= rowid x)%Z.

(** The fallible calls on the database handle.  [OpScan i row] and
    [OpInsert i r] belong to the [i]-th row of the result set. *)
Inductive StorageOp :=
| OpOpen
| OpCreateTable (table : string)
| OpCount (table : string)
| OpQuery (code : string)
| OpNext (i : nat)
| OpScan (i : nat) (row : ResultRow)
| OpInsert (i : nat) (r : LogRecord).

(** The calls whose error the source hands to [checkFatal].  The error
    that ends [rows.Next()] early is never read ([rows.Err()] is not
    consulted). *)
Definition checked (op : StorageOp) : bool :=
  match op with
  | OpNext _ => false
  | _ => true
  end.

End Storage.

(** ** The batch runner and the start-up check of the database *)

Module Runner.
Import Go Resolver Storage.

Inductive Level := DebugLevel | InfoLevel | WarnLevel | FatalLevel.

(** What a run does that can be observed from outside. *)
Inductive Event :=
| Log (level : Level) (msg : string)
| Sleep (d : GoTime.Duration)
| Call (op : StorageOp) (err : error)
| Resolve (code qrCode : string).

(** How a piece of the program ends: it goes on with a value, the process
    exits ([os.Exit]), or a panic unwinds it. *)
Inductive Res (A : Type) :=
| Ok (a : A)
| Exit (status : Z)
| Panic (msg : string).
Arguments Ok {A} a.
Arguments Exit {A} status.
Arguments Panic {A} msg.

(** Code running against the database handle [db], with the events it
    emits in order. *)
Definition M (A : Type) : Type := Db -> Res A * Db * list Event.

#[global] Instance M_ret : MRet M := fun A a db => (Ok a, db, []).

#[global] Instance M_bind : MBind M := fun A B f m db =>
  match m db with
  | (Ok a, db', evs) =>
      let '(r, db'', evs') := f a db' in (r, db'', (evs ++ evs')%list)
  | (Exit status, db', evs) => (Exit status, db', evs)
  | (Panic msg, db', evs) => (Panic msg, db', evs)
  end.

Definition emit (ev : Event) : M unit := fun db => (Ok (), db, [ev]).
Definition exit (status : Z) : M unit := fun db => (Exit status, db, []).
Definition getDb : M Db := fun db => (Ok db, db, []).
Definition putLog (tbl : list LogRecord) : M unit := fun db =>
  (Ok (), {| tbl_emu_qrcode := tbl_emu_qrcode db; tbl_emu_log := tbl |}, []).

(** A call that panics unwinds the goroutine; nothing recovers it. *)
Definition lift {A} (e : exec A) : M A := fun db =>
  match e with
  | Returns a => (Ok a, db, [])
  | Panics msg => (Panic msg, db, [])
  end.

Section Faults.
(** The error, if any, each call on the database handle comes back
    with. *)
Variable fault : StorageOp -> error.

Definition call (op : StorageOp) : M error :=
  _ ← emit (Call op (fault op)); mret (fault op).

(** [checkFatal]: [log.Fatal().Msg] writes the message and calls
    [os.Exit(1)]. *)
Definition checkFatal (err : error) : M unit :=
  match err with
  | None => mret ()
  | Some msg => _ ← emit (Log FatalLevel msg); exit 1
  end.

(** [db.Query] of the selection, for the bureau with code [code]. *)
Definition query (code : string) : M (list ResultRow * error) :=
  err ← call (OpQuery code);
  match err with
  | Some _ => mret ([], err)
  | None => db ← getDb; mret (selectVehicles (tbl_emu_qrcode db) code, None)
  end.

(** [db.Exec] of the insert, for the [i]-th row of the result set. *)
Definition execInsert (i : nat) (r : LogRecord) : M error :=
  err ← call (OpInsert i r);
  match err with
  | Some _ => mret err
  | None =>
      db ← getDb;
      _ ← putLog (insertOrIgnore (tbl_emu_log db) r);
      mret None
  end.

(** The body of the loop over [rows] in [iterVehicles]. *)
Definition processRow (b : Bureau) (i : nat) (row : ResultRow) : M unit :=
  let '(emuNo, qrCode, _) := row in
  err ← call (OpScan i row);
  _ ← checkFatal err;
  _ ← emit (Sleep Scheduler.requestDelay);
  _ ← emit (Resolve (Code b) qrCode);
  '(trainNo, date, _) ← lift (callTrainNo b qrCode);
  _ ← emit (Log DebugLevel (emuNo +:+ ": " +:+ Code b +:+ "/" +:+ trainNo));
  if decide (trainNo ≠ "") then
    err ← execInsert i {| date := date; emuNo := emuNo; trainNo := trainNo |};
    checkFatal err
  else mret ().

(** [for rows.Next() { ... }]: the loop ends when the rows are used up
    or [Next] fails. *)
Fixpoint iterRows (b : Bureau) (rows : list ResultRow) (i : nat) : M unit :=
  match rows with
  | [] => _ ← call (OpNext i); mret ()
  | row :: rest =>
      err ← call (OpNext i);
      match err with
      | Some _ => mret ()
      | None => _ ← processRow b i row; iterRows b rest (S i)
      end
  end.

Definition iterVehicles (b : Bureau) : M unit :=
  _ ← emit (Log InfoLevel ("job started: " +:+ Name b));
  '(rows, err) ← query (Code b);
  _ ← checkFatal err;
  _ ← iterRows b rows 0;
  emit (Log InfoLevel ("job done: " +:+ Name b)).

Definition countRecords (tableName : string) : M Z :=
  err ← call (OpCount tableName);
  _ ← checkFatal err;
  db ← getDb;
  if decide (tableName = "emu_log") then
    mret (Z.of_nat (length (tbl_emu_log db)))
  else mret (Z.of_nat (length (tbl_emu_qrcode db))).

Definition checkDatabase : M unit :=
  err ← call OpOpen;
  _ ← checkFatal err;
  err ← call (OpCreateTable "emu_log");
  _ ← checkFatal err;
  n ← countRecords "emu_log";
  _ ← emit (Log InfoLevel
              ("found " +:+ pretty n +:+ " log records in database"));
  err ← call (OpCreateTable "emu_qrcode");
  _ ← checkFatal err;
  n ← countRecords "emu_qrcode";
  emit (Log InfoLevel
          ("found " +:+ pretty n +:+ " qr code records in database")).
End Faults.

(** The vehicles whose row a run has read, in the order it read them. *)
Definition scanned (evs : list Event) : list string :=
  omap (fun ev =>
          match ev with
          | Call (OpScan _ (emuNo, _, _)) None => Some emuNo
          | _ => None
          end) evs.

(** The rows a run has handed to [db.Exec]. *)
Definition inserts (evs : list Event) : list LogRecord :=
  omap (fun ev =>
          match ev with
          | Call (OpInsert _ r) _ => Some r
          | _ => None
          end) evs.

(** The scan codes a run has asked a provider about. *)
Definition resolved (evs : list Event) : list string :=
  omap (fun ev =>
          match ev with
          | Resolve _ qrCode => Some qrCode
          | _ => None
          end) evs.

(** The log table after a successful insert of [r]. *)
Definition withLog (db : Db) (r : LogRecord) : Db :=
  {| tbl_emu_qrcode := tbl_emu_qrcode db;
     tbl_emu_log := insertOrIgnore (tbl_emu_log db) r |}.

(** The events of one round of the loop up to the call of the resolver. *)
Definition upToResolve (b : Bureau) (i : nat) (row : ResultRow)
  : list Event :=
  [Call (OpScan i row) None; Sleep Scheduler.requestDelay;
   Resolve (Code b) row.1.2].

(** The line [iterVehicles] logs after the resolver has returned. *)
Definition debugLine (b : Bureau) (emuNo trainNo : string) : Event :=
  Log DebugLevel (emuNo +:+ ": " +:+ Code b +:+ "/" +:+ trainNo).

(** The events of a round in which the resolver returned no train
    number. *)
Definition skipped (b : Bureau) (i : nat) (row : ResultRow) : list Event :=
  Call (OpNext i) None
    :: (upToResolve b i row ++ [debugLine b row.1.1 ""])%list.

(** No call whose error goes to [checkFatal] has failed. *)
Definition clean (evs : list Event) : Prop :=
  forall op e, Call op (Some e) ∈ evs -> checked op = false.

(** A run keeps the discipline of [checkFatal] when it exits only with
    status 1, right after the failed call and the log line of its error,
    and otherwise has seen no such failure. *)
Definition disciplined {A} (run : Res A * Db * list Event) : Prop :=
  match run.1.1 with
  | Exit status =>
      status = 1%Z
      /\ exists pre op e,
          run.2 = (pre ++ [Call op (Some e); Log FatalLevel e])%list
          /\ clean pre
  | _ => clean run.2
  end.

End Runner.

(** ** Sample data *)

Module Sample.
Import Go Resolver Storage Runner.

Definition table : list QrCodeRow :=
  [ {| rowid := 1; emu_no := "CRH2-002"; emu_bureau := "H";
       emu_qrcode := "PQ0002" |};
    {| rowid := 2; emu_no := "CRH1-001"; emu_bureau := "H";
       emu_qrcode := "PQ0001b" |};
    {| rowid := 3; emu_no := "CRH1-001"; emu_bureau := "P";
       emu_qrcode := "QR0001" |};
    {| rowid := 0; emu_no := "CRH1-001"; emu_bureau := "H";
       emu_qrcode := "PQ0001" |} ].

Definition db0 : Db := {| tbl_emu_qrcode := table; tbl_emu_log := [] |}.

(** A provider that times out on one scan code and answers the others. *)
Definition provider : InfoFn := fun qrCode =>
  if decide (qrCode = "PQ0001") then (∅, Some "context deadline exceeded")
  else ({[ "trainName" := JString "G101" ]}, None).

Definition shanghai : Bureau := bureauH "2026-10-30" provider.

Definition noFault : StorageOp -> error := fun _ => None.

(** The database fails on every insert. *)
Definition insertFault : StorageOp -> error := fun op =>
  match op with
  | OpInsert _ _ => Some "disk I/O error"
  | _ => None
  end.

(** A bureau whose resolver returns a train number together with an
    error. *)
Definition careless : Bureau :=
  {| Code := "X"; Name := "X";
     TrainNo := fun _ _ => Returns ("G101", "2026-10-30", Some "stale");
     Info := fun _ => (∅, None) |}.

Definition g101 : LogRecord :=
  {| date := "2026-10-30"; emuNo := "CRH1-001"; trainNo := "G101" |}.

Definition g101' : LogRecord :=
  {| date := "2026-10-30"; emuNo := "CRH2-002"; trainNo := "G101" |}.

(** The events of [iterVehicles insertFault shanghai db0] before the
    insert fails. *)
Definition beforeFailure : list Event :=
  take 12 (iterVehicles insertFault shanghai db0).2.

End Sample.

(** ** Notions for the properties of a batch *)

Module Batch.
Import Go Resolver Storage Runner.

(** The row the round of a vehicle hands to [db.Exec], if any: the
    resolver has returned, with a train number that is not empty. *)
Definition candidate (b : Bureau) (row : ResultRow) : option LogRecord :=
  match callTrainNo b row.1.2 with
  | Returns (trainNo, date, _) =>
      if decide (trainNo = "") then None
      else Some {| date := date; emuNo := row.1.1; trainNo := trainNo |}
  | Panics _ => None
  end.

Definition candidates (b : Bureau) (rows : list ResultRow) : list LogRecord :=
  omap (candidate b) rows.

(** No resolver call of the batch panics. *)
Definition noPanic (b : Bureau) (rows : list ResultRow) : Prop :=
  forall row msg, row ∈ rows -> callTrainNo b row.1.2 <> Panics msg.

(** [UNIQUE(emu_bureau, emu_qrcode)] on [emu_qrcode]. *)
Definition unique_qrcode (tbl : list QrCodeRow) : Prop :=
  NoDup ((fun r => (emu_bureau r, emu_qrcode r)) <$> tbl).

(** Every call of a resolver comes right after a pause of
    [requestDelay]. *)
Definition paced (evs : list Event) : Prop :=
  forall k code qrCode,
    evs !! k = Some (Resolve code qrCode) ->
    exists k', k = S k' /\ evs !! k' = Some (Sleep Scheduler.requestDelay).

End Batch.

(** ** The loop of [main] *)

Module MainLoop.
Import GoTime Scheduler.
Local Open Scope Z_scope.

Definition minDuration : Duration := - 2 ^ 63.
Definition maxDuration : Duration := 2 ^ 63 - 1.

(** [t.Sub(u)]: the difference, or the least or greatest [Duration] when
    the difference does not fit. *)
Definition Sub (t u : Time) : Duration :=
  if t - u <? minDuration then minDuration
  else if maxDuration <? t - u then maxDuration
  else t - u.

(** [time.Until(t)], read when the clock shows [clockNow]. *)
Definition Until (t clockNow : Time) : Duration := Sub t clockNow.

(** The instant at which [time.Sleep(d)], called when the clock shows
    [clockNow], returns: at once when [d] is not positive, and otherwise
    after [d] and whatever [lag] the runtime adds. *)
Definition Sleep (d : Duration) (clockNow : Time) (lag : Duration) : Time :=
  if d <=? 0 then clockNow else clockNow + d + lag.

(** One iteration of the loop of [main]: the next run is computed from
    [now], then the round and the log line take [elapsed], then the loop
    sleeps until the next run.  The result is the scheduled time and the
    time the following iteration begins. *)
Definition iteration (l : Location) (now : Time) (elapsed lag : Duration)
  : Time * Time :=
  let nextRun := nextRun l now in
  let afterRound := now + elapsed in
  (nextRun, Sleep (Until nextRun afterRound) afterRound lag).

End MainLoop.

(** ** The checks [main] makes before its loop *)

Module Startup.
Import Go Resolver Storage Runner.

(** The value of an [int] after an arithmetic operation: [int] has 64
    bits where the program compiles ([int(time.Hour)] fits no smaller
    one). *)
Definition wrap64 (z : Z) : Z := ((z + 2 ^ 63) mod 2 ^ 64 - 2 ^ 63)%Z.

(** What [Format("-07")] prints for a zone [offset] seconds east of UTC:
    the sign and the hours, on two digits at least. *)
Definition formatShortTZ (offset : Z) : string :=
  let zone := Z.quot offset 60 in
  let hours := Z.quot (Z.abs zone) 60 in
  (if (zone <? 0)%Z then "-" else "+")
  +:+ (if (hours <? 10)%Z then "0" else "") +:+ pretty hours.

(** [checkLocalTimezone].  [tzName] and [tzOffset] are what the first
    [time.Now().Zone()] returns, [formatOffset] is the offset in force at
    the second [time.Now()], the one that is formatted. *)
Definition checkLocalTimezone (tzName : string) (tzOffset formatOffset : Z)
  : M unit :=
  if decide (wrap64 (tzOffset * GoTime.Second) <> (8 * GoTime.Hour)%Z) then
    emit (Log WarnLevel
            ("expected Beijing Timezone (UTC+08), but found " +:+ tzName
             +:+ " (UTC" +:+ formatShortTZ formatOffset +:+ ")"))
  else mret ().

(** [checkInternetConnection], for the list [bureaus]; [delay] is how
    [time.Since(start)] prints. *)
Definition checkInternetConnection (bureaus : list Bureau) (delay : string)
  : M unit :=
  match bureaus with
  | [] => lift (Panics "runtime error: index out of range [0] with length 0")
  | b :: _ =>
      let '(_, err) := Info b "PQ0123456" in
      _ ← checkFatal err;
      emit (Log InfoLevel
              ("internet connection ok, round-trip delay " +:+ delay))
  end.

(** The three checks at the head of [main], in its order. *)
Definition startup (fault : StorageOp -> error) (bureaus : list Bureau)
  (tzName : string) (tzOffset formatOffset : Z) (delay : string) : M unit :=
  _ ← checkLocalTimezone tzName tzOffset formatOffset;
  _ ← checkInternetConnection bureaus delay;
  checkDatabase fault.

End Startup.

(** ** What a resolver is to extract *)

Module Extract.
Import Go Resolver.

(** The string a record holds under [k], if it holds one. *)
Definition stringField (info : JsonObject) (k : string) : option string :=
  match info !! k with
  | Some (JString s) => Some s
  | _ => None
  end.

(** The pair of train number and date a record stands for: bureau "H"
    gives no date and gets the current one, bureau "P" gives its own. *)
Definition extracted (nowDate code : string) (info : JsonObject)
  : option (string * string) :=
  if decide (code = "H") then
    t ← stringField info "trainName"; Some (t, nowDate)
  else if decide (code = "P") then
    t ← stringField info "TrainnoId";
    d ← stringField info "TrainnoDate";
    Some (t, d)
  else None.

End Extract.

(** ** The requests of the two provider adapters *)

Module Request.

(** [shouldEscape(c, encodeQueryComponent)] of [net/url]: letters, digits
    and the marks [-], [_], [.] and [~] are kept, every other byte is
    escaped. *)
Definition shouldEscape (c : ascii) : bool :=
  let n := N_of_ascii c in
  if ((97 <=? n) && (n <=? 122) || (65 <=? n) && (n <=? 90)
      || (48 <=? n) && (n <=? 57))%N
  then false
  else if existsb (Ascii.eqb c) ["-"; "_"; "."; "~"]%char then false
  else true.

(** [upperhex[n]] and the digit [%x] prints for [n], for [n] below 16. *)
Definition upperhex (n : N) : ascii :=
  ascii_of_N (if (n <? 10)%N then 48 + n else 55 + n).

Definition lowerhex (n : N) : ascii :=
  ascii_of_N (if (n <? 10)%N then 48 + n else 87 + n).

(** What [escape] writes for one byte: [+] for a space, [%XX] for a byte
    to escape, the byte itself otherwise. *)
Definition escapeByte (c : ascii) : string :=
  if Ascii.eqb c " " then "+"
  else if shouldEscape c then
    String "%" (String (upperhex (N_of_ascii c / 16))
                  (String (upperhex (N_of_ascii c mod 16)) ""))
  else String c "".

(** [url.QueryEscape]. *)
Fixpoint QueryEscape (s : string) : string :=
  match s with
  | EmptyString => EmptyString
  | String c rest => escapeByte c +:+ QueryEscape rest
  end.

(** [url.Values.Encode] for values given as a list in ascending order of
    the keys, the order in which [Encode] visits them. *)
Definition Encode (v : list (string * list string)) : string :=
  String.concat "&"
    (flat_map
       (fun kv =>
          map (fun x => QueryEscape kv.1 +:+ "=" +:+ QueryEscape x) kv.2)
       v).

(** [fmt.Sprintf("%x", sum)] for the bytes of a checksum. *)
Fixpoint hex (bytes : string) : string :=
  match bytes with
  | EmptyString => EmptyString
  | String c rest =>
      String (lowerhex (N_of_ascii c / 16))
        (String (lowerhex (N_of_ascii c mod 16)) (hex rest))
  end.

Definition apiH : string :=
  "https://g.xiuxiu365.cn/railway_api/web/index/train".

(** The URL bureau "H" sends its GET request to for a scan code. *)
Definition urlH (pqCode : string) : string :=
  apiH +:+ "?" +:+ Encode [("pqCode", [pqCode])].

Section Signed.
(** [md5.Sum]: the sixteen bytes of the checksum of a text. *)
Variable md5Sum : string -> string.

(** [fmt.Sprintf(key, qrCode)], the text bureau "P" signs. *)
Definition signedText (qrCode : string) : string :=
  "qrcode=" +:+ qrCode +:+ "&key=ltRsjkiM8IRbC80Ni1jzU5jiO6pJvbKd".

Definition sign (qrCode : string) : string := hex (md5Sum (signedText qrCode)).

(** The body of the form bureau "P" posts for a scan code. *)
Definition formP (qrCode : string) : string :=
  Encode [("qrCode", [qrCode]); ("sign", [sign qrCode])].
End Signed.

(** The bytes an escaped text is made of. *)
Definition escapedAlphabet : list ascii :=
  list_ascii_of_string
    "ABCDEFGHIJKLMNOPQRSTUVWXYZabcdefghijklmnopqrstuvwxyz0123456789-_.~%+".

Definition inAlphabet (c : ascii) : bool :=
  existsb (Ascii.eqb c) escapedAlphabet.

Definition hexDigits : list ascii := list_ascii_of_string "0123456789abcdef".

Definition isHexDigit (c : ascii) : bool := existsb (Ascii.eqb c) hexDigits.

(** The bytes that separate the parts of a URL and the fields of a
    form. *)
Definition separators : list ascii := ["&"; "="; "#"; "?"; "/"; " "]%char.

(** The value of a hexadecimal digit. *)
Definition unhex (c : ascii) : option N :=
  let n := N_of_ascii c in
  if ((48 <=? n) && (n <=? 57))%N then Some (n - 48)%N
  else if ((65 <=? n) && (n <=? 70))%N then Some (n - 55)%N
  else if ((97 <=? n) && (n <=? 102))%N then Some (n - 87)%N
  else None.

(** The decoding a server applies to a query component
    ([url.QueryUnescape]): it is not part of the program and serves to
    show that escaping loses nothing. *)
Fixpoint unescape (s : string) : option string :=
  match s with
  | EmptyString => Some EmptyString
  | String "%" (String x (String y rest)) =>
      match unhex x, unhex y, unescape rest with
      | Some a, Some b, Some r => Some (String (ascii_of_N (16 * a + b)) r)
      | _, _, _ => None
      end
  | String "%" _ => None
  | String "+" rest => option_map (String " ") (unescape rest)
  | String c rest => option_map (String c) (unescape rest)
  end.

End Request.

(** ** The inserts of a batch *)

Module Committed.
Import Go Storage Runner.

(** The rows whose insert statement a run has executed without a
    failure, in the order of execution. *)
Definition committed (evs : list Event) : list LogRecord :=
  omap (fun ev =>
          match ev with
          | Call (OpInsert _ r) None => Some r
          | _ => None
          end) evs.

(** The log table after the insert statements for [rows], in order. *)
Definition insertAll (tbl : list LogRecord) (rows : list LogRecord)
  : list LogRecord :=
  foldl insertOrIgnore tbl rows.

End Committed.

(** ** Further sample data *)

Module Cases.
Import Go Resolver Storage Runner.

(** The database fails when the loop asks for the second row. *)
Definition nextFault : StorageOp -> error := fun op =>
  match op with
  | OpNext 1 => Some "database is locked"
  | _ => None
  end.

(** The rows the query finds for bureau "H" in [Sample.table]. *)
Definition selection : list ResultRow :=
  [("CRH1-001", "PQ0001", 0%Z); ("CRH2-002", "PQ0002", 1%Z)].

(** [Sample.db0] after a batch of [Sample.shanghai] without failures. *)
Definition db1 : Db :=
  {| tbl_emu_qrcode := Sample.table; tbl_emu_log := [Sample.g101'] |}.

(** A provider of bureau "P" that answers every scan code with the same
    train number and a date of its own. *)
Definition providerP : InfoFn := fun _ =>
  ({[ "TrainnoId" := JString "G7"; "TrainnoDate" := JString "2026-10-29" ]},
   None).

(** Bureau "P" with that provider, and the row its batch inserts for the
    one vehicle [Sample.table] has for it. *)
Definition beijing : Bureau := bureauP providerP.

Definition g7 : LogRecord :=
  {| date := "2026-10-29"; emuNo := "CRH1-001"; trainNo := "G7" |}.

End Cases.

(** * Properties *)

(** ** The scheduler *)

Module SchedulerFacts.
Import GoTime Scheduler.
Local Open Scope Z_scope.

Ltac unfold_units :=
  unfold clock, day, repeatInterval, startTime, endTime in *;
  change Hour with 3600000000000 in *;
  change Minute with 60000000000 in *;
  change Second with 1000000000 in *.

Lemma offsetAt_FixedZone off sec : offsetAt (FixedZone off) sec = off.
Proof. reflexivity. Qed.

Lemma Date_FixedZone d off :
  Date d (FixedZone off) = (d * 86400 - off) * Second.
Proof.
  unfold Date, lookup; cbn [FixedZone tx zone0 lookupTx].
  destruct (Z.eqb_spec off 0) as [-> | _].
  - f_equal; lia.
  - rewrite offsetAt_FixedZone.
    now destruct (_ || _).
Qed.

Lemma today_FixedZone off now :
  today (FixedZone off) now
  = ((unixSec now + off) / 86400 * 86400 - off) * Second.
Proof.
  unfold today. rewrite Date_FixedZone.
  unfold localDay. now rewrite offsetAt_FixedZone.
Qed.

(** In a zone without transitions [now] is its local midnight plus its
    clock reading. *)
Lemma now_split off now :
  now = today (FixedZone off) now + timeOfDay (FixedZone off) now.
Proof.
  rewrite today_FixedZone.
  unfold timeOfDay, unixSec, nsecOf. rewrite offsetAt_FixedZone.
  unfold_units.
  Z.div_mod_to_equations. lia.
Qed.

Lemma timeOfDay_range l now : 0 <= timeOfDay l now < day.
Proof.
  unfold timeOfDay, nsecOf. unfold_units.
  generalize (unixSec now + offsetAt l (unixSec now)); intros s.
  Z.div_mod_to_equations. lia.
Qed.

(** The clock reading [d] after local midnight of [now]'s day, read back
    in the same zone. *)
Lemma reading_of_today_plus off now d :
  0 <= d < day ->
  localDay (FixedZone off) (today (FixedZone off) now + d)
    = localDay (FixedZone off) now
  /\ timeOfDay (FixedZone off) (today (FixedZone off) now + d) = d.
Proof.
  intros Hd. rewrite today_FixedZone.
  unfold localDay, timeOfDay, unixSec, nsecOf.
  rewrite !offsetAt_FixedZone.
  unfold_units.
  split; Z.div_mod_to_equations; lia.
Qed.

(** With a zone without transitions the day never lasts longer than 24
    hours: [now] is not after the end of the window. *)
Lemma never_after_end off now :
  After now (Add (today (FixedZone off) now) endTime) = false.
Proof.
  unfold After, Add. apply Z.ltb_ge.
  pose proof (now_split off now).
  pose proof (timeOfDay_range (FixedZone off) now).
  unfold endTime, day in *. lia.
Qed.

Lemma Truncate_hour now :
  Truncate now repeatInterval = now / Hour * Hour.
Proof.
  unfold Truncate, repeatInterval.
  change (Hour <=? 0) with false; cbv iota.
  change (unixToInternal * Second) with (17259888 * Hour).
  rewrite Z.mod_add by discriminate.
  pose proof (Z.div_mod now Hour ltac:(discriminate)). lia.
Qed.

(** The three branches of [nextRun], for any location. *)
Lemma nextRun_before l now :
  now < today l now + startTime ->
  nextRun l now = today l now + startTime.
Proof.
  intros H. unfold nextRun, Before, Add.
  now apply Z.ltb_lt in H as ->.
Qed.

Lemma nextRun_after l now :
  today l now + endTime < now ->
  nextRun l now = today l now + day.
Proof.
  intros H. unfold nextRun, Before, After, Add.
  destruct (Z.ltb_spec now (today l now + startTime)) as [Hlt | _].
  - unfold startTime, endTime in *. unfold_units. lia.
  - now apply Z.ltb_lt in H as ->.
Qed.

Lemma nextRun_within l now :
  today l now + startTime <= now <= today l now + endTime ->
  nextRun l now = now / Hour * Hour + Hour.
Proof.
  intros [H1 H2]. unfold nextRun, Before, After, Add.
  apply Z.ltb_ge in H1 as ->. apply Z.ltb_ge in H2 as ->.
  now rewrite Truncate_hour.
Qed.






(** Where the clocks never change, the window of the code is the window
    [05:00, 24:00) of the local clock. *)
Lemma window_of_clock off now :
  (now < today (FixedZone off) now + startTime
   <-> timeOfDay (FixedZone off) now < clock 5 0)
  /\ (today (FixedZone off) now + startTime <= now
        < today (FixedZone off) now + endTime
      <-> clock 5 0 <= timeOfDay (FixedZone off) now < clock 24 0).
Proof.
  pose proof (now_split off now).
  pose proof (timeOfDay_range (FixedZone off) now).
  unfold_units. lia.
Qed.

(** In a zone a whole number of hours from UTC the next run of the third
    branch reads a whole hour on the local clock as well. *)
Lemma nextRun_within_whole_hour k now :
  clock 5 0 <= timeOfDay (FixedZone (k * 3600)) now < clock 24 0 ->
  timeOfDay (FixedZone (k * 3600)) (nextRun (FixedZone (k * 3600)) now)
    mod Hour = 0.
Proof.
  intros H.
  assert (E : nextRun (FixedZone (k * 3600)) now = now / Hour * Hour + Hour).
  { apply nextRun_within. pose proof (now_split (k * 3600) now).
    unfold_units. lia. }
  rewrite E. unfold timeOfDay, unixSec, nsecOf.
  rewrite offsetAt_FixedZone. unfold_units.
  generalize (now / 3600000000000); intros q.
  Z.div_mod_to_equations. lia.
Qed.

(** C3 as stated fails: at 01:00 the next run is not on the next
    calendar day. *)
Lemma nextRun_at_0100_not_next_day :
  timeOfDay Beijing (beijing 1 0) = clock 1 0
  /\ ~ (localDay Beijing (nextRun Beijing (beijing 1 0))
          = localDay Beijing (beijing 1 0) + 1
        /\ timeOfDay Beijing (nextRun Beijing (beijing 1 0)) = clock 5 0).
Proof.
  split; [vm_compute; reflexivity |].
  intros [H _]. vm_compute in H. discriminate H.
Qed.

(** C3, amended: at 01:00 the next run is 05:00 of the same calendar
    day. *)
Theorem nextRun_at_0100_same_day off now :
  timeOfDay (FixedZone off) now = clock 1 0 ->
  localDay (FixedZone off) (nextRun (FixedZone off) now)
    = localDay (FixedZone off) now
  /\ timeOfDay (FixedZone off) (nextRun (FixedZone off) now) = clock 5 0.
Proof.
  intros H.
  assert (E : nextRun (FixedZone off) now
              = today (FixedZone off) now + startTime).
  { apply nextRun_before. pose proof (now_split off now).
    unfold_units. lia. }
  rewrite E. apply reading_of_today_plus. unfold_units. lia.
Qed.

Lemma nextRun_at_0100_beijing :
  timeOfDay Beijing (beijing 1 0) = clock 1 0
  /\ localDay Beijing (nextRun Beijing (beijing 1 0))
     = localDay Beijing (beijing 1 0)
  /\ timeOfDay Beijing (nextRun Beijing (beijing 1 0)) = clock 5 0.
Proof.
  assert (H : timeOfDay Beijing (beijing 1 0) = clock 1 0)
    by (vm_compute; reflexivity).
  split; [exact H |].
  exact (nextRun_at_0100_same_day (8 * 3600) (beijing 1 0) H).
Defined.

(** C2 at a failing input: on a day of twenty-five hours the current time
    can be after the window end, and the next run is then neither 05:00
    of the following day nor later than the current time. *)
Lemma nextRun_after_end_not_0500 :
  today fallBack lateEvening + endTime < lateEvening
  /\ ~ (localDay fallBack (nextRun fallBack lateEvening)
          = localDay fallBack lateEvening + 1
        /\ timeOfDay fallBack (nextRun fallBack lateEvening) = clock 5 0)
  /\ nextRun fallBack lateEvening
     <> today fallBack lateEvening + day + startTime
  /\ nextRun fallBack lateEvening < lateEvening.
Proof.
  split; [vm_compute; reflexivity |].
  split; [intros [H _]; vm_compute in H; discriminate H |].
  split; [vm_compute; discriminate | vm_compute; reflexivity].
Qed.

(** C2 fails on the code: at every current time after today's window
    end the next run is not tomorrow's window start, [today + day +
    startTime]; it is [today + day], the very instant the window ended,
    which is already past. *)
Theorem nextRun_after_window_end l now :
  today l now + endTime < now ->
  nextRun l now = today l now + day
  /\ nextRun l now <> today l now + day + startTime
  /\ nextRun l now < now.
Proof.
  intros H. rewrite (nextRun_after l now H).
  unfold endTime, day, startTime in *. unfold_units. lia.
Qed.

Lemma nextRun_after_window_end_fallBack :
  today fallBack lateEvening + endTime < lateEvening
  /\ nextRun fallBack lateEvening = today fallBack lateEvening + day
  /\ nextRun fallBack lateEvening < lateEvening.
Proof.
  assert (H : today fallBack lateEvening + endTime < lateEvening)
    by (vm_compute; reflexivity).
  split; [exact H |].
  destruct (nextRun_after_window_end fallBack lateEvening H) as (E & _ & Hlt).
  split; [exact E | exact Hlt].
Defined.

End SchedulerFacts.

(** ** The resolvers *)

Module ResolverFacts.
Import Go Resolver.

Lemma assertString_Returns v s :
  assertString v = Returns s <-> v = JString s.
Proof.
  split; [| now intros ->].
  destruct v; cbn; intros H; try discriminate H. now injection H as ->.
Qed.

Lemma index_string (info : JsonObject) k s :
  info !! k = Some (JString s) <-> index info k = JString s.
Proof.
  unfold index. destruct (info !! k) as [v |]; cbn.
  - split; [now intros [= ->] | now intros ->].
  - split; discriminate.
Qed.

Lemma assertString_index_panics (info : JsonObject) k :
  ~ (exists s, info !! k = Some (JString s)) ->
  exists msg, assertString (index info k) = Panics msg.
Proof.
  intros H. destruct (assertString (index info k)) as [s | msg] eqn:E.
  - exfalso. apply H. exists s.
    now apply index_string, assertString_Returns.
  - now exists msg.
Qed.

(** A resolver of the source returns an error only when its provider
    adapter did, and then with an empty train number and date. *)
Lemma TrainNo_error nowDate infoH infoP b qrCode trainNo date e :
  b ∈ bureaus nowDate infoH infoP ->
  callTrainNo b qrCode = Returns (trainNo, date, Some e) ->
  trainNo = "" /\ date = "" /\ (Info b qrCode).2 = Some e.
Proof.
  unfold bureaus, callTrainNo.
  intros Hb; apply list_elem_of_In in Hb.
  destruct Hb as [<- | [<- | []]]; cbn [TrainNo Info bureauH bureauP].
  - unfold TrainNo_H. destruct (infoH qrCode) as [info [e' |]]; cbn.
    + now intros [= <- <- <-].
    + destruct (assertString _); discriminate.
  - unfold TrainNo_P. destruct (infoP qrCode) as [info [e' |]]; cbn.
    + now intros [= <- <- <-].
    + destruct (assertString _); [destruct (assertString _) |];
        discriminate.
Qed.

(** C1 fails on the code: when the provider adapter succeeds with a
    record in which a required field is absent or is not a string, the
    resolver returns nothing, it panics. *)
Theorem TrainNo_malformed_panics nowDate infoH infoP b qrCode info :
  b ∈ bureaus nowDate infoH infoP ->
  Info b qrCode = (info, None) ->
  ~ wellFormed (Code b) info ->
  exists msg, callTrainNo b qrCode = Panics msg.
Proof.
  unfold bureaus, callTrainNo, wellFormed.
  intros Hb; apply list_elem_of_In in Hb.
  destruct Hb as [<- | [<- | []]];
    cbn [TrainNo Info Code bureauH bureauP]; intros HI Hbad.
  - unfold TrainNo_H. rewrite HI.
    destruct (assertString_index_panics info "trainName") as [msg ->];
      [| now exists msg].
    intros H. apply Hbad. cbn. now repeat constructor.
  - unfold TrainNo_P. rewrite HI.
    destruct (assertString (index info "TrainnoId")) as [s1 | msg] eqn:E1;
      [| now exists msg].
    destruct (assertString (index info "TrainnoDate")) as [s2 | msg] eqn:E2;
      [| now exists msg].
    exfalso. apply Hbad. cbn.
    apply assertString_Returns, index_string in E1, E2.
    repeat constructor; eauto.
Qed.

(** The record of an answer whose data object is empty, for bureau "H". *)
Lemma TrainNo_H_empty_record :
  ~ wellFormed "H" ∅
  /\ callTrainNo (bureauH "2026-10-30" (fun _ => (∅, None))) "PQ0001"
     = Panics "interface conversion: interface {} is nil, not string".
Proof.
  assert (Hbad : ~ wellFormed "H" ∅).
  { unfold wellFormed. cbn. intros H.
    apply Forall_cons in H as [[s Hs] _]. discriminate Hs. }
  split; [exact Hbad |].
  destruct (TrainNo_malformed_panics "2026-10-30" (fun _ => (∅, None))
              (fun _ => (∅, None))
              (bureauH "2026-10-30" (fun _ => (∅, None))) "PQ0001" ∅)
    as [msg Hmsg].
  - unfold bureaus. left.
  - reflexivity.
  - exact Hbad.
  - rewrite Hmsg. vm_compute in Hmsg. now injection Hmsg as <-.
Defined.

End ResolverFacts.

(** ** The two SQL statements *)

Module StorageFacts.
Import Go Storage.

Lemma matching_absent r tbl : r ∉ tbl -> matching r tbl = 0.
Proof.
  unfold matching. induction tbl as [| x tbl IH]; [reflexivity |].
  intros H. apply not_elem_of_cons in H as [Hne Hnot].
  rewrite filter_cons_False by congruence. auto.
Qed.

Lemma matching_present r tbl :
  unique_log tbl -> r ∈ tbl -> matching r tbl = 1.
Proof.
  unfold unique_log, matching. induction 1 as [| x tbl Hx Hnd IH].
  - intros H. now apply elem_of_nil in H.
  - intros H. destruct (decide (x = r)) as [-> | Hne].
    + rewrite filter_cons_True by reflexivity. cbn.
      f_equal. now apply matching_absent.
    + rewrite filter_cons_False by assumption.
      apply IH. apply elem_of_cons in H as [-> |]; [congruence | assumption].
Qed.

Lemma insertOrIgnore_elem r tbl : r ∈ insertOrIgnore tbl r.
Proof.
  unfold insertOrIgnore. case_decide; [assumption |].
  apply elem_of_app. right. apply list_elem_of_singleton. reflexivity.
Qed.

Lemma insertOrIgnore_unique r tbl :
  unique_log tbl -> unique_log (insertOrIgnore tbl r).
Proof.
  unfold unique_log, insertOrIgnore. intros H. case_decide; [assumption |].
  apply NoDup_app. split; [assumption |]. split.
  - intros x Hx Hx'. apply list_elem_of_singleton in Hx'. congruence.
  - apply NoDup_singleton.
Qed.

Lemma insertOrIgnore_again r tbl :
  insertOrIgnore (insertOrIgnore tbl r) r = insertOrIgnore tbl r.
Proof.
  unfold insertOrIgnore at 1.
  rewrite decide_True by apply insertOrIgnore_elem. reflexivity.
Qed.

Lemma cmp_Lt a b : cmp a b = Lt -> String_as_OT.lt a b.
Proof. now unfold cmp, String_as_OT.lt. Qed.

Lemma cmp_Eq a b : cmp a b = Eq -> a = b.
Proof.
  unfold cmp. intros H.
  destruct (String_as_OT.compare_spec a b); [assumption | |]; discriminate.
Qed.

Lemma cmp_Gt a b : cmp a b = Gt -> String_as_OT.lt b a.
Proof.
  unfold cmp. intros H.
  destruct (String_as_OT.compare_spec a b); [discriminate | discriminate |].
  assumption.
Qed.

Lemma lt_irrefl a : ~ String_as_OT.lt a a.
Proof. apply (StrictOrder_Irreflexive (R := String_as_OT.lt)). Qed.

Lemma lt_trans a b c :
  String_as_OT.lt a b -> String_as_OT.lt b c -> String_as_OT.lt a c.
Proof. apply (StrictOrder_Transitive (R := String_as_OT.lt)). Qed.

(** Every group after an insertion is the new row or an old group. *)
Lemma groupInsert_elem r groups g :
  g ∈ groupInsert r groups -> g = r \/ g ∈ groups.
Proof.
  induction groups as [| g0 rest IH]; cbn.
  - intros H. apply list_elem_of_singleton in H. now left.
  - destruct (cmp (emu_no r) (emu_no g0)).
    + intros H. apply elem_of_cons in H as [-> | H].
      * destruct (rowid r <? rowid g0)%Z; [now left | right; left].
      * right; now right.
    + intros H. apply elem_of_cons in H as [-> | H]; [now left | now right].
    + intros H. apply elem_of_cons in H as [-> | H]; [right; left |].
      destruct (IH H) as [-> | H']; [now left | right; now right].
Qed.

Lemma groupInsert_Forall (P : QrCodeRow -> Prop) r groups :
  P r -> Forall P groups -> Forall P (groupInsert r groups).
Proof.
  intros Hr H. apply Forall_forall. intros g Hg.
  destruct (groupInsert_elem _ _ _ Hg) as [-> | Hin]; [assumption |].
  now apply (proj1 (Forall_forall _ _) H).
Qed.

Lemma groupInsert_sorted r groups :
  StronglySorted before groups ->
  StronglySorted before (groupInsert r groups).
Proof.
  induction 1 as [| g0 rest Hs IH Hall]; cbn.
  - repeat constructor.
  - destruct (cmp (emu_no r) (emu_no g0)) eqn:E.
    + apply cmp_Eq in E. constructor; [assumption |].
      destruct (rowid r <? rowid g0)%Z; [| assumption].
      eapply Forall_impl; [exact Hall |].
      unfold before. intros x Hx. now rewrite E.
    + apply cmp_Lt in E. constructor; [now constructor |].
      constructor; [exact E |].
      eapply Forall_impl; [exact Hall |].
      unfold before. intros x Hx. eapply lt_trans; eassumption.
    + apply cmp_Gt in E. constructor; [assumption |].
      now apply groupInsert_Forall.
Qed.

Lemma groupByEmuNo_sorted rows : StronglySorted before (groupByEmuNo rows).
Proof.
  induction rows as [| r rows IH]; cbn.
  - constructor.
  - now apply groupInsert_sorted.
Qed.

(** In an ascending list of groups a vehicle has one group. *)
Lemma sorted_group_unique groups g1 g2 :
  StronglySorted before groups ->
  g1 ∈ groups -> g2 ∈ groups -> emu_no g1 = emu_no g2 -> g1 = g2.
Proof.
  induction 1 as [| g0 rest Hs IH Hall]; intros H1 H2 E.
  - now apply elem_of_nil in H1.
  - apply elem_of_cons in H1 as [-> | H1], H2 as [-> | H2]; auto.
    + apply (proj1 (Forall_forall _ _) Hall) in H2.
      unfold before in H2. rewrite E in H2. now apply lt_irrefl in H2.
    + apply (proj1 (Forall_forall _ _) Hall) in H1.
      unfold before in H1. rewrite E in H1. now apply lt_irrefl in H1.
Qed.

(** The inserted row is covered after the insertion, and so is every row
    that was covered before. *)
Lemma groupInsert_covers_new r groups : covers (groupInsert r groups) r.
Proof.
  induction groups as [| g0 rest IH]; cbn.
  - exists r. split; [left | split; [reflexivity | lia]].
  - destruct (cmp (emu_no r) (emu_no g0)) eqn:E.
    + apply cmp_Eq in E.
      destruct (Z.ltb_spec (rowid r) (rowid g0)).
      * exists r. split; [left | split; [reflexivity | lia]].
      * exists g0. split; [left | split; [now symmetry | lia]].
    + exists r. split; [left | split; [reflexivity | lia]].
    + destruct IH as (g & Hg & He & Hr).
      exists g. split; [now right | now split].
Qed.

Lemma groupInsert_covers_old r groups x :
  covers groups x -> covers (groupInsert r groups) x.
Proof.
  induction groups as [| g0 rest IH]; cbn; intros (g & Hg & He & Hr).
  - now apply elem_of_nil in Hg.
  - destruct (cmp (emu_no r) (emu_no g0)) eqn:E.
    + apply cmp_Eq in E. apply elem_of_cons in Hg as [-> | Hg].
      * destruct (Z.ltb_spec (rowid r) (rowid g0)).
        -- exists r. split; [left | split; [congruence | lia]].
        -- exists g0. split; [left | now split].
      * exists g. split; [now right | now split].
    + exists g. split; [now right | now split].
    + apply elem_of_cons in Hg as [-> | Hg].
      * exists g0. split; [left | now split].
      * destruct IH as (g' & Hg' & He' & Hr'); [now exists g |].
        exists g'. split; [now right | now split].
Qed.

Lemma groupByEmuNo_elem rows g : g ∈ groupByEmuNo rows -> g ∈ rows.
Proof.
  induction rows as [| r rows IH]; cbn; [trivial |].
  intros H. destruct (groupInsert_elem _ _ _ H) as [-> | H'];
    [left | right; auto].
Qed.

Lemma groupByEmuNo_covers rows x : x ∈ rows -> covers (groupByEmuNo rows) x.
Proof.
  induction rows as [| r rows IH]; cbn; intros H.
  - now apply elem_of_nil in H.
  - apply elem_of_cons in H as [-> | H].
    + apply groupInsert_covers_new.
    + apply groupInsert_covers_old. auto.
Qed.

Lemma sorted_emu_no groups :
  StronglySorted before groups ->
  StronglySorted String_as_OT.lt (emu_no <$> groups).
Proof.
  induction 1 as [| g rest Hs IH Hall]; cbn; constructor; [assumption |].
  apply Forall_fmap. exact Hall.
Qed.

Lemma selectVehicles_keys tbl code :
  (selectVehicles tbl code).*1.*1
  = emu_no <$> groupByEmuNo (filter (fun r => emu_bureau r = code) tbl).
Proof.
  unfold selectVehicles. rewrite <- !list_fmap_compose. reflexivity.
Qed.

(** The vehicles of the result are strictly ascending. *)
Lemma selectVehicles_sorted tbl code :
  StronglySorted String_as_OT.lt (selectVehicles tbl code).*1.*1.
Proof.
  rewrite selectVehicles_keys. apply sorted_emu_no, groupByEmuNo_sorted.
Qed.

(** The result has a row for a vehicle exactly when the table has a row
    of that vehicle and bureau. *)
Lemma selectVehicles_vehicles tbl code v :
  v ∈ (selectVehicles tbl code).*1.*1
  <-> exists r, r ∈ tbl /\ emu_bureau r = code /\ emu_no r = v.
Proof.
  rewrite selectVehicles_keys. split.
  - intros H. apply list_elem_of_fmap in H as (g & -> & Hg).
    apply groupByEmuNo_elem, list_elem_of_filter in Hg as [Hb Hg].
    now exists g.
  - intros (r & Hr & Hb & <-).
    destruct (groupByEmuNo_covers
                (filter (fun r => emu_bureau r = code) tbl) r)
      as (g & Hg & He & _).
    + apply list_elem_of_filter. now split.
    + rewrite <- He. apply list_elem_of_fmap. now exists g.
Qed.

(** Every row of the result carries the scan code and [rowid] of the
    table row of least [rowid] among those of its vehicle and bureau. *)
Lemma selectVehicles_earliest tbl code v q i :
  (v, q, i) ∈ selectVehicles tbl code ->
  exists r, r ∈ tbl /\ emu_bureau r = code /\ emu_no r = v
            /\ emu_qrcode r = q /\ rowid r = i
            /\ forall r', r' ∈ tbl -> emu_bureau r' = code ->
                          emu_no r' = v -> (i <= rowid r')%Z.
Proof.
  unfold selectVehicles. intros H.
  apply list_elem_of_fmap in H as (g & [= -> -> ->] & Hg).
  pose proof (groupByEmuNo_elem _ _ Hg) as Hin.
  apply list_elem_of_filter in Hin as [Hb Hin].
  exists g. repeat split; try assumption.
  intros r' Hr' Hb' He'.
  destruct (groupByEmuNo_covers
              (filter (fun r => emu_bureau r = code) tbl) r')
    as (g' & Hg' & He & Hle).
  { apply list_elem_of_filter. now split. }
  assert (g' = g) as ->; [| assumption].
  eapply sorted_group_unique; eauto using groupByEmuNo_sorted.
  congruence.
Qed.

(** Strictly ascending vehicles are pairwise different. *)
Lemma sorted_NoDup (l : list string) :
  StronglySorted String_as_OT.lt l -> NoDup l.
Proof.
  induction 1 as [| a l Hs IH Hall]; constructor; [| assumption].
  intros Hin. apply (proj1 (Forall_forall _ _) Hall) in Hin.
  now apply lt_irrefl in Hin.
Qed.

End StorageFacts.

(** ** The batch runner *)

Module RunnerFacts.
Import Go Resolver Storage Runner StorageFacts.

Ltac run_monad :=
  unfold processRow, execInsert, query, countRecords, call, checkFatal,
    emit, exit, getDb, putLog, lift, mbind, M_bind, mret, M_ret;
  cbn.

(** [processRow], case by case. *)
Lemma processRow_eq fault b i emuNo qrCode id db :
  processRow fault b i (emuNo, qrCode, id) db =
  match fault (OpScan i (emuNo, qrCode, id)) with
  | Some e =>
      (Exit 1, db,
       [Call (OpScan i (emuNo, qrCode, id)) (Some e); Log FatalLevel e])
  | None =>
      match callTrainNo b qrCode with
      | Panics msg => (Panic msg, db, upToResolve b i (emuNo, qrCode, id))
      | Returns (trainNo, date, _) =>
          let r := {| date := date; emuNo := emuNo; trainNo := trainNo |} in
          let evs := (upToResolve b i (emuNo, qrCode, id)
                      ++ [debugLine b emuNo trainNo])%list in
          if decide (trainNo = "") then (Ok (), db, evs)
          else
            match fault (OpInsert i r) with
            | Some e =>
                (Exit 1, db,
                 (evs ++ [Call (OpInsert i r) (Some e); Log FatalLevel e])
                   %list)
            | None =>
                (Ok (), withLog db r,
                 (evs ++ [Call (OpInsert i r) None])%list)
            end
      end
  end.
Proof.
  run_monad.
  destruct (fault (OpScan i (emuNo, qrCode, id))) as [e |]; [reflexivity |].
  cbn. destruct (callTrainNo b qrCode) as [[[trainNo date] err] | msg];
    [| reflexivity].
  cbn. destruct (decide (trainNo = "")) as [-> | Hne].
  - rewrite decide_False by tauto. reflexivity.
  - rewrite decide_True by assumption. run_monad.
    destruct (fault (OpInsert i _)) as [e |]; reflexivity.
Qed.

Lemma iterRows_nil fault b i db :
  iterRows fault b [] i db
  = (Ok (), db, [Call (OpNext i) (fault (OpNext i))]).
Proof. reflexivity. Qed.

(** One round of the loop. *)
Lemma iterRows_cons fault b row rest i db :
  iterRows fault b (row :: rest) i db =
  match fault (OpNext i) with
  | Some e => (Ok (), db, [Call (OpNext i) (Some e)])
  | None =>
      match processRow fault b i row db with
      | (Ok _, db1, evs1) =>
          let '(res, db2, evs2) := iterRows fault b rest (S i) db1 in
          (res, db2, Call (OpNext i) None :: (evs1 ++ evs2)%list)
      | (Exit status, db1, evs1) =>
          (Exit status, db1, Call (OpNext i) None :: evs1)
      | (Panic msg, db1, evs1) =>
          (Panic msg, db1, Call (OpNext i) None :: evs1)
      end
  end.
Proof.
  cbn [iterRows]. unfold call, emit, mbind, M_bind, mret, M_ret. cbn.
  destruct (fault (OpNext i)) as [e |]; [reflexivity |].
  destruct (processRow fault b i row db) as [[[u | status | msg] db1] evs1];
    try reflexivity.
  destruct (iterRows fault b rest (S i) db1) as [[res db2] evs2].
  reflexivity.
Qed.

Lemma iterVehicles_eq fault b db :
  iterVehicles fault b db =
  let started := Log InfoLevel ("job started: " +:+ Name b) in
  match fault (OpQuery (Code b)) with
  | Some e =>
      (Exit 1, db,
       [started; Call (OpQuery (Code b)) (Some e); Log FatalLevel e])
  | None =>
      let rows := selectVehicles (tbl_emu_qrcode db) (Code b) in
      match iterRows fault b rows 0 db with
      | (Ok _, db1, evs) =>
          (Ok (), db1,
           started :: Call (OpQuery (Code b)) None
             :: (evs ++ [Log InfoLevel ("job done: " +:+ Name b)])%list)
      | (Exit status, db1, evs) =>
          (Exit status, db1, started :: Call (OpQuery (Code b)) None :: evs)
      | (Panic msg, db1, evs) =>
          (Panic msg, db1, started :: Call (OpQuery (Code b)) None :: evs)
      end
  end.
Proof.
  unfold iterVehicles. run_monad.
  destruct (fault (OpQuery (Code b))) as [e |]; [reflexivity |]. cbn.
  destruct (iterRows fault b _ 0 db) as [[[u | status | msg] db1] evs];
    reflexivity.
Qed.

(** *** The order in which vehicles are read *)

Lemma scanned_app l1 l2 :
  scanned (l1 ++ l2) = (scanned l1 ++ scanned l2)%list.
Proof. apply omap_app. Qed.

Lemma processRow_scanned fault b i emuNo qrCode id db res db' evs :
  processRow fault b i (emuNo, qrCode, id) db = (res, db', evs) ->
  scanned evs `prefix_of` [emuNo] /\ (res = Ok () -> scanned evs = [emuNo]).
Proof.
  rewrite processRow_eq.
  destruct (fault (OpScan _ _)) as [e |].
  { intros [= <- <- <-]. cbn. split; [apply prefix_nil | discriminate]. }
  destruct (callTrainNo b qrCode) as [[[trainNo date] err] | msg].
  2: { intros [= <- <- <-]. cbn. split; [reflexivity | discriminate]. }
  cbn zeta. destruct (decide (trainNo = "")).
  { intros [= <- <- <-]. cbn. split; reflexivity. }
  destruct (fault (OpInsert _ _)) as [e |];
    intros [= <- <- <-]; cbn; split; reflexivity || discriminate.
Qed.

Lemma iterRows_scanned fault b rows :
  forall i db res db' evs,
    iterRows fault b rows i db = (res, db', evs) ->
    scanned evs `prefix_of` rows.*1.*1
    /\ ((forall j, fault (OpNext j) = None) -> res = Ok () ->
        scanned evs = rows.*1.*1).
Proof.
  induction rows as [| [[emuNo qrCode] id] rest IH]; intros i db res db' evs.
  - rewrite iterRows_nil. intros [= <- <- <-]. cbn. split; reflexivity.
  - rewrite iterRows_cons. destruct (fault (OpNext i)) as [e |] eqn:EN.
    { intros [= <- <- <-]. cbn. split; [apply prefix_nil |].
      intros HN. rewrite HN in EN. discriminate EN. }
    destruct (processRow fault b i (emuNo, qrCode, id) db)
      as [[res1 db1] evs1] eqn:EP.
    destruct (processRow_scanned _ _ _ _ _ _ _ _ _ _ EP) as [Hp Hfull].
    destruct res1 as [[] | status | msg].
    + destruct (iterRows fault b rest (S i) db1) as [[res2 db2] evs2] eqn:ER.
      destruct (IH _ _ _ _ _ ER) as [IHp IHf].
      intros [= <- <- <-]. cbn. fold (scanned (evs1 ++ evs2)).
      rewrite scanned_app, Hfull by reflexivity. cbn. split.
      * now apply prefix_cons.
      * intros HN HO. f_equal. now apply IHf.
    + intros [= <- <- <-]. cbn. fold (scanned evs1). split; [| discriminate].
      etransitivity; [exact Hp |]. apply prefix_cons, prefix_nil.
    + intros [= <- <- <-]. cbn. fold (scanned evs1). split; [| discriminate].
      etransitivity; [exact Hp |]. apply prefix_cons, prefix_nil.
Qed.

Lemma iterVehicles_scanned fault b db :
  scanned (iterVehicles fault b db).2
    `prefix_of` (selectVehicles (tbl_emu_qrcode db) (Code b)).*1.*1
  /\ ((forall j, fault (OpNext j) = None) ->
      (iterVehicles fault b db).1.1 = Ok () ->
      scanned (iterVehicles fault b db).2
      = (selectVehicles (tbl_emu_qrcode db) (Code b)).*1.*1).
Proof.
  rewrite iterVehicles_eq. cbn zeta.
  destruct (fault (OpQuery (Code b))) as [e |].
  { cbn. split; [apply prefix_nil | discriminate]. }
  destruct (iterRows fault b _ 0 db) as [[res db1] evs] eqn:ER.
  destruct (iterRows_scanned _ _ _ _ _ _ _ _ ER) as [Hp Hf].
  destruct res as [[] | status | msg]; cbn.
  - fold (scanned (evs ++ [Log InfoLevel ("job done: " +:+ Name b)])).
    rewrite scanned_app. cbn. rewrite app_nil_r. split; [assumption |].
    intros HN _. now apply Hf.
  - fold (scanned evs). split; [assumption | discriminate].
  - fold (scanned evs). split; [assumption | discriminate].
Qed.

(** *** The discipline of [checkFatal] *)

Lemma clean_nil : clean [].
Proof. intros op e H. now apply elem_of_nil in H. Qed.

Lemma clean_cons ev evs :
  (forall op e, ev = Call op (Some e) -> checked op = false) ->
  clean evs -> clean (ev :: evs).
Proof.
  intros Hev Hevs op e H. apply elem_of_cons in H as [H | H]; eauto.
Qed.

Lemma clean_app l1 l2 : clean l1 -> clean l2 -> clean (l1 ++ l2).
Proof.
  intros H1 H2 op e H. apply elem_of_app in H as [H | H]; eauto.
Qed.

Lemma clean_tail ev evs : clean (ev :: evs) -> clean evs.
Proof. intros H op e Hin. apply (H op e). now right. Qed.

Ltac solve_clean :=
  repeat first
    [ apply clean_nil
    | assumption
    | apply clean_app
    | apply clean_cons;
      [ let H := fresh in intros ? ? H; inversion H; reflexivity | ] ].

Lemma disciplined_prepend {A} pre (res : Res A) db evs :
  clean pre -> disciplined (res, db, evs) ->
  disciplined (res, db, (pre ++ evs)%list).
Proof.
  unfold disciplined; cbn. intros Hpre.
  destruct res as [a | status | msg].
  - now apply clean_app.
  - intros [-> (pre' & op & e & -> & Hc)]. split; [reflexivity |].
    exists (pre ++ pre')%list, op, e. rewrite app_assoc.
    split; [reflexivity | now apply clean_app].
  - now apply clean_app.
Qed.

Lemma disciplined_exit {A} db pre op e :
  clean pre ->
  @disciplined A
    (Exit 1, db, (pre ++ [Call op (Some e); Log FatalLevel e])%list).
Proof.
  intros Hpre. unfold disciplined; cbn. split; [reflexivity |].
  now exists pre, op, e.
Qed.

Lemma processRow_disciplined fault b i row db :
  disciplined (processRow fault b i row db).
Proof.
  destruct row as [[emuNo qrCode] id]. rewrite processRow_eq.
  destruct (fault (OpScan _ _)) as [e |].
  { apply (disciplined_exit db []). apply clean_nil. }
  destruct (callTrainNo b qrCode) as [[[trainNo date] err] | msg].
  2: { unfold disciplined, upToResolve; cbn. solve_clean. }
  cbn zeta. destruct (decide (trainNo = "")).
  { unfold disciplined, upToResolve, debugLine; cbn. solve_clean. }
  destruct (fault (OpInsert _ _)) as [e |].
  - apply disciplined_exit. unfold upToResolve, debugLine; cbn. solve_clean.
  - unfold disciplined, upToResolve, debugLine; cbn. solve_clean.
Qed.

Lemma iterRows_disciplined fault b rows :
  forall i db, disciplined (iterRows fault b rows i db).
Proof.
  induction rows as [| row rest IH]; intros i db.
  - rewrite iterRows_nil. unfold disciplined; cbn. solve_clean.
  - rewrite iterRows_cons. destruct (fault (OpNext i)) as [e |].
    { unfold disciplined; cbn. solve_clean. }
    pose proof (processRow_disciplined fault b i row db) as Hp.
    destruct (processRow fault b i row db) as [[res1 db1] evs1].
    destruct res1 as [u | status | msg]; unfold disciplined in Hp; cbn in Hp.
    + specialize (IH (S i) db1).
      destruct (iterRows fault b rest (S i) db1) as [[res2 db2] evs2].
      apply (disciplined_prepend (Call (OpNext i) None :: evs1));
        [solve_clean | assumption].
    + destruct Hp as [-> (pre & op & e & -> & Hc)].
      apply (disciplined_exit db1 (Call (OpNext i) None :: pre)).
      solve_clean.
    + unfold disciplined; cbn. solve_clean.
Qed.

Lemma iterVehicles_disciplined fault b db :
  disciplined (iterVehicles fault b db).
Proof.
  rewrite iterVehicles_eq. cbn zeta.
  destruct (fault (OpQuery (Code b))) as [e |].
  { apply (disciplined_exit db [Log InfoLevel ("job started: " +:+ Name b)]).
    solve_clean. }
  pose proof (iterRows_disciplined fault b
                (selectVehicles (tbl_emu_qrcode db) (Code b)) 0 db) as Hr.
  destruct (iterRows fault b _ 0 db) as [[res db1] evs].
  destruct res as [u | status | msg]; unfold disciplined in Hr; cbn in Hr.
  - unfold disciplined; cbn. solve_clean.
  - destruct Hr as [-> (pre & op & e & -> & Hc)].
    apply (disciplined_exit db1
             (Log InfoLevel ("job started: " +:+ Name b)
                :: Call (OpQuery (Code b)) None :: pre)).
    solve_clean.
  - unfold disciplined; cbn. solve_clean.
Qed.

(** A call followed by [checkFatal] and the rest of the program. *)
Lemma checked_call_disciplined {A} fault op (k : M A) db :
  (forall db', disciplined (k db')) ->
  disciplined ((call fault op ≫= fun err => checkFatal err ≫= fun _ => k) db).
Proof.
  intros Hk. unfold call, checkFatal, emit, exit, mbind, M_bind, mret, M_ret.
  cbn. destruct (fault op) as [e |]; cbn.
  - apply (disciplined_exit (A := A) db []). apply clean_nil.
  - specialize (Hk db). destruct (k db) as [[res db1] evs].
    apply (disciplined_prepend [Call op None]); [solve_clean | assumption].
Qed.

Lemma emit_disciplined {A} level msg (k : M A) db :
  (forall db', disciplined (k db')) ->
  disciplined ((emit (Log level msg) ≫= fun _ => k) db).
Proof.
  intros Hk. unfold emit, mbind, M_bind. cbn.
  specialize (Hk db). destruct (k db) as [[res db1] evs].
  apply (disciplined_prepend [Log level msg]); [solve_clean | assumption].
Qed.

Lemma checkDatabase_disciplined fault db :
  disciplined (checkDatabase fault db).
Proof.
  unfold checkDatabase, countRecords.
  apply checked_call_disciplined; intros db1.
  apply checked_call_disciplined; intros db2.
  unfold mbind at 1, M_bind at 1.
  assert (Hcount : forall (k : Z -> M ()) table db0,
             (forall n db', disciplined (k n db')) ->
             disciplined
               (match
                  (call fault (OpCount table) ≫= fun err =>
                   checkFatal err ≫= fun _ =>
                   getDb ≫= fun db =>
                   if decide (table = "emu_log")
                   then mret (Z.of_nat (length (tbl_emu_log db)))
                   else mret (Z.of_nat (length (tbl_emu_qrcode db)))) db0
                with
                | (Ok a, db', evs) =>
                    let '(r, db'', evs') := k a db' in
                    (r, db'', (evs ++ evs')%list)
                | (Exit status, db', evs) => (Exit status, db', evs)
                | (Panic msg, db', evs) => (Panic msg, db', evs)
                end)).
  { intros k table db0 Hk.
    unfold call, checkFatal, emit, exit, getDb, mbind, M_bind, mret, M_ret.
    cbn. destruct (fault (OpCount table)) as [e |]; cbn.
    - apply (disciplined_exit (A := ()) db0 []). apply clean_nil.
    - destruct (decide (table = "emu_log")); cbn;
        match goal with
        | |- context [k ?n db0] =>
            specialize (Hk n db0); destruct (k n db0) as [[res db'] evs]
        end;
        apply (disciplined_prepend [Call (OpCount table) None]);
        solve_clean. }
  apply Hcount. intros n db3.
  apply emit_disciplined; intros db4.
  apply checked_call_disciplined; intros db5.
  unfold mbind at 1, M_bind at 1.
  apply Hcount. intros m db6.
  unfold emit, disciplined; cbn. solve_clean.
Qed.

(** A failed call that goes to [checkFatal] is followed by the log line
    of its error, and by nothing else. *)
Lemma failure_is_last pre0 op0 e0 :
  clean pre0 ->
  forall pre op e post,
    checked op = true ->
    (pre0 ++ [Call op0 (Some e0); Log FatalLevel e0])%list
    = (pre ++ Call op (Some e) :: post)%list ->
    post = [Log FatalLevel e].
Proof.
  induction pre0 as [| a0 pre0 IH]; intros Hc pre op e post Hop Heq.
  - destruct pre as [| a pre]; cbn in Heq.
    + now injection Heq as <- <- <-.
    + injection Heq as <- Heq. destruct pre as [| a' pre]; cbn in Heq.
      * discriminate Heq.
      * injection Heq as _ Heq. now destruct pre.
  - destruct pre as [| a pre]; cbn in Heq.
    + injection Heq as -> _. rewrite (Hc op e) in Hop by left.
      discriminate Hop.
    + injection Heq as _ Heq. eapply IH; eauto using clean_tail.
Qed.

Lemma disciplined_trace {A} (run : Res A * Db * list Event) :
  disciplined run ->
  forall pre op e post,
    run.2 = (pre ++ Call op (Some e) :: post)%list ->
    checked op = true ->
    run.1.1 = Exit 1 /\ post = [Log FatalLevel e].
Proof.
  destruct run as [[res db] evs]. unfold disciplined; cbn.
  intros H pre op e post -> Hop.
  assert (Hin : Call op (Some e) ∈ (pre ++ Call op (Some e) :: post)%list).
  { apply elem_of_app. right. left. }
  destruct res as [a | status | msg].
  - rewrite (H op e Hin) in Hop. discriminate Hop.
  - destruct H as [-> (pre0 & op0 & e0 & Heq & Hc)].
    split; [reflexivity |]. symmetry in Heq.
    eapply failure_is_last; eauto.
  - rewrite (H op e Hin) in Hop. discriminate Hop.
Qed.

(** *** The claims on the batch runner and the log table *)

(** C4: on a log table that satisfies its uniqueness constraint, two
    inserts of the same triple both come back without an error, the
    second changes nothing, and the table then holds exactly one row
    equal to the triple. *)
Theorem insert_twice_one_row fault i j r db :
  unique_log (tbl_emu_log db) ->
  fault (OpInsert i r) = None ->
  fault (OpInsert j r) = None ->
  execInsert fault i r db
    = (Ok None, withLog db r, [Call (OpInsert i r) None])
  /\ execInsert fault j r (withLog db r)
    = (Ok None, withLog db r, [Call (OpInsert j r) None])
  /\ matching r (tbl_emu_log (withLog db r)) = 1
  /\ unique_log (tbl_emu_log (withLog db r)).
Proof.
  intros Hu Hi Hj. repeat split.
  - run_monad. rewrite Hi. reflexivity.
  - run_monad. rewrite Hj. cbn. unfold withLog; cbn.
    now rewrite insertOrIgnore_again.
  - cbn. apply matching_present.
    + now apply insertOrIgnore_unique.
    + apply insertOrIgnore_elem.
  - cbn. now apply insertOrIgnore_unique.
Qed.

Lemma insert_twice_g101 :
  unique_log (tbl_emu_log Sample.db0)
  /\ execInsert Sample.noFault 1 Sample.g101
       (withLog Sample.db0 Sample.g101)
     = (Ok None, withLog Sample.db0 Sample.g101,
        [Call (OpInsert 1 Sample.g101) None])
  /\ matching Sample.g101 (tbl_emu_log (withLog Sample.db0 Sample.g101)) = 1.
Proof.
  assert (Hu : unique_log (tbl_emu_log Sample.db0)) by apply NoDup_nil_2.
  split; [exact Hu |].
  destruct (insert_twice_one_row Sample.noFault 0 1 Sample.g101 Sample.db0
              Hu eq_refl eq_refl) as (_ & H2 & H3 & _).
  split; [exact H2 | exact H3].
Defined.

(** C5: the selection has one row for each vehicle of the provider, with
    the scan code of the vehicle's row of least [rowid], in strictly
    ascending order of the vehicle id; the batch runner reads the
    vehicles in that order, all of them when the run ends normally. *)
Theorem selection_earliest_ascending fault b db :
  StronglySorted String_as_OT.lt
    (selectVehicles (tbl_emu_qrcode db) (Code b)).*1.*1
  /\ NoDup (selectVehicles (tbl_emu_qrcode db) (Code b)).*1.*1
  /\ (forall v,
        v ∈ (selectVehicles (tbl_emu_qrcode db) (Code b)).*1.*1
        <-> exists r, r ∈ tbl_emu_qrcode db
                      /\ emu_bureau r = Code b /\ emu_no r = v)
  /\ (forall v q i,
        (v, q, i) ∈ selectVehicles (tbl_emu_qrcode db) (Code b) ->
        exists r, r ∈ tbl_emu_qrcode db
                  /\ emu_bureau r = Code b /\ emu_no r = v
                  /\ emu_qrcode r = q /\ rowid r = i
                  /\ forall r', r' ∈ tbl_emu_qrcode db ->
                                emu_bureau r' = Code b ->
                                emu_no r' = v -> (i <= rowid r')%Z)
  /\ scanned (iterVehicles fault b db).2
       `prefix_of` (selectVehicles (tbl_emu_qrcode db) (Code b)).*1.*1
  /\ ((forall j, fault (OpNext j) = None) ->
      (iterVehicles fault b db).1.1 = Ok () ->
      scanned (iterVehicles fault b db).2
      = (selectVehicles (tbl_emu_qrcode db) (Code b)).*1.*1).
Proof.
  split; [apply selectVehicles_sorted |].
  split; [apply sorted_NoDup, selectVehicles_sorted |].
  split; [apply selectVehicles_vehicles |].
  split; [apply selectVehicles_earliest |].
  apply iterVehicles_scanned.
Qed.

Lemma selection_of_sample :
  selectVehicles Sample.table "H"
    = [("CRH1-001", "PQ0001", 0%Z); ("CRH2-002", "PQ0002", 1%Z)]
  /\ scanned (iterVehicles Sample.noFault Sample.shanghai Sample.db0).2
     = ["CRH1-001"; "CRH2-002"].
Proof.
  split; [reflexivity |].
  destruct (selection_earliest_ascending Sample.noFault Sample.shanghai
              Sample.db0) as (_ & _ & _ & _ & _ & Hall).
  rewrite Hall; reflexivity.
Defined.

(** C6: whenever a call on the database handle whose error goes to
    [checkFatal] (open, create, count, query, scan, insert) returns an
    error, during the start-up check or during a batch, the very next
    event is the fatal log line with that error, nothing follows it, and
    the process exits with status 1. *)
Theorem storage_error_is_fatal fault b db (prog : M ()) pre op e post :
  prog = iterVehicles fault b \/ prog = checkDatabase fault ->
  (prog db).2 = (pre ++ Call op (Some e) :: post)%list ->
  checked op = true ->
  (prog db).1.1 = Exit 1 /\ post = [Log FatalLevel e].
Proof.
  intros Hprog. apply disciplined_trace.
  destruct Hprog as [-> | ->].
  - apply iterVehicles_disciplined.
  - apply checkDatabase_disciplined.
Qed.

Lemma insert_failure_is_fatal :
  (iterVehicles Sample.insertFault Sample.shanghai Sample.db0).2
    = (Sample.beforeFailure
         ++ Call (OpInsert 1 Sample.g101') (Some "disk I/O error")
         :: [Log FatalLevel "disk I/O error"])%list
  /\ resolved Sample.beforeFailure = ["PQ0001"; "PQ0002"]
  /\ (iterVehicles Sample.insertFault Sample.shanghai Sample.db0).1.1
     = Exit 1.
Proof.
  assert (H : (iterVehicles Sample.insertFault Sample.shanghai Sample.db0).2
              = (Sample.beforeFailure
                   ++ Call (OpInsert 1 Sample.g101') (Some "disk I/O error")
                   :: [Log FatalLevel "disk I/O error"])%list)
    by (vm_compute; reflexivity).
  split; [exact H |]. split; [vm_compute; reflexivity |].
  exact (proj1 (storage_error_is_fatal Sample.insertFault Sample.shanghai
                  Sample.db0 _ _ _ _ _ (or_introl eq_refl) H eq_refl)).
Defined.

(** The four calls C6 names, each failing on its own. *)
Lemma query_failure fault b db e :
  fault (OpQuery (Code b)) = Some e ->
  iterVehicles fault b db
  = (Exit 1, db,
     [Log InfoLevel ("job started: " +:+ Name b);
      Call (OpQuery (Code b)) (Some e); Log FatalLevel e]).
Proof. intros H. rewrite iterVehicles_eq, H. reflexivity. Qed.

Lemma open_failure fault db e :
  fault OpOpen = Some e ->
  checkDatabase fault db
  = (Exit 1, db, [Call OpOpen (Some e); Log FatalLevel e]).
Proof. intros H. unfold checkDatabase. run_monad. rewrite H. reflexivity. Qed.

Lemma scan_failure fault b i row rest db e :
  fault (OpNext i) = None ->
  fault (OpScan i row) = Some e ->
  iterRows fault b (row :: rest) i db
  = (Exit 1, db,
     [Call (OpNext i) None; Call (OpScan i row) (Some e); Log FatalLevel e]).
Proof.
  intros HN HS. destruct row as [[emuNo qrCode] id].
  rewrite iterRows_cons, HN, processRow_eq, HS. reflexivity.
Qed.

Lemma insert_failure fault b i emuNo qrCode id rest db trainNo date err e :
  fault (OpNext i) = None ->
  fault (OpScan i (emuNo, qrCode, id)) = None ->
  callTrainNo b qrCode = Returns (trainNo, date, err) ->
  trainNo <> "" ->
  fault (OpInsert i {| date := date; emuNo := emuNo; trainNo := trainNo |})
    = Some e ->
  iterRows fault b ((emuNo, qrCode, id) :: rest) i db
  = (Exit 1, db,
     Call (OpNext i) None
       :: (upToResolve b i (emuNo, qrCode, id)
           ++ [debugLine b emuNo trainNo;
               Call (OpInsert i {| date := date; emuNo := emuNo;
                                   trainNo := trainNo |}) (Some e);
               Log FatalLevel e])%list).
Proof.
  intros HN HS HT Hne HI.
  rewrite iterRows_cons, HN, processRow_eq, HS, HT. cbn zeta.
  rewrite decide_False by assumption. rewrite HI. reflexivity.
Qed.

(** C9: when the resolver of bureau "H" or "P" returns an error for a
    vehicle, the round of that vehicle makes no insert and leaves the
    database as it was, and the loop goes on with the remaining
    vehicles. *)
Theorem resolution_error_skips_vehicle
  fault nowDate infoH infoP b i emuNo qrCode id rest db trainNo date e :
  b ∈ bureaus nowDate infoH infoP ->
  fault (OpNext i) = None ->
  fault (OpScan i (emuNo, qrCode, id)) = None ->
  callTrainNo b qrCode = Returns (trainNo, date, Some e) ->
  inserts (skipped b i (emuNo, qrCode, id)) = []
  /\ iterRows fault b ((emuNo, qrCode, id) :: rest) i db
     = let '(res, db', evs) := iterRows fault b rest (S i) db in
       (res, db', (skipped b i (emuNo, qrCode, id) ++ evs)%list).
Proof.
  intros Hb HN HS HT. split; [reflexivity |].
  destruct (ResolverFacts.TrainNo_error _ _ _ _ _ _ _ _ Hb HT)
    as (-> & _ & _).
  rewrite iterRows_cons, HN, processRow_eq, HS, HT. cbn zeta.
  rewrite decide_True by reflexivity.
  destruct (iterRows fault b rest (S i) db) as [[res db'] evs].
  reflexivity.
Qed.

Lemma timeout_skips_vehicle :
  callTrainNo Sample.shanghai "PQ0001"
    = Returns ("", "", Some "context deadline exceeded")
  /\ (iterRows Sample.noFault Sample.shanghai
        [("CRH1-001", "PQ0001", 0%Z); ("CRH2-002", "PQ0002", 1%Z)] 0
        Sample.db0).1
     = (Ok (), withLog Sample.db0 Sample.g101').
Proof.
  assert (HT : callTrainNo Sample.shanghai "PQ0001"
               = Returns ("", "", Some "context deadline exceeded"))
    by reflexivity.
  split; [exact HT |].
  destruct (resolution_error_skips_vehicle Sample.noFault "2026-10-30"
              Sample.provider Sample.provider Sample.shanghai 0
              "CRH1-001" "PQ0001" 0%Z [("CRH2-002", "PQ0002", 1%Z)]
              Sample.db0 "" "" "context deadline exceeded"
              ltac:(left) eq_refl eq_refl HT) as [_ ->].
  vm_compute. reflexivity.
Defined.

(** C10: in the round of a vehicle, whatever error the resolver returns
    with the train number, the insert is made exactly when the train
    number is not the empty string.  With an empty train number the round
    ends normally and leaves the database as it was.  With any other train
    number the statement is executed; when it does not fail, the round
    ends normally with the row of the returned date, the vehicle and the
    train number in the log table, added at its end unless it was there
    already, and nothing else changed; when it fails, the process exits
    with the database as it was.  So the row is in the log table after
    the round exactly when the train number is not empty or the row was
    there before. *)
Theorem insert_iff_trainNo_nonempty
  fault (b : Bureau) i emuNo qrCode id db trainNo date err :
  fault (OpScan i (emuNo, qrCode, id)) = None ->
  callTrainNo b qrCode = Returns (trainNo, date, err) ->
  inserts (processRow fault b i (emuNo, qrCode, id) db).2
    = (if decide (trainNo = "") then []
       else [{| date := date; emuNo := emuNo; trainNo := trainNo |}])
  /\ (trainNo = "" ->
      processRow fault b i (emuNo, qrCode, id) db
      = (Ok (), db,
         (upToResolve b i (emuNo, qrCode, id) ++ [debugLine b emuNo ""])
           %list))
  /\ (trainNo <> "" ->
      fault (OpInsert i
               {| date := date; emuNo := emuNo; trainNo := trainNo |})
        = None ->
      (processRow fault b i (emuNo, qrCode, id) db).1.1 = Ok ()
      /\ {| date := date; emuNo := emuNo; trainNo := trainNo |}
           ∈ tbl_emu_log (processRow fault b i (emuNo, qrCode, id) db).1.2
      /\ tbl_emu_log (processRow fault b i (emuNo, qrCode, id) db).1.2
         = (if decide ({| date := date; emuNo := emuNo; trainNo := trainNo |}
                         ∈ tbl_emu_log db)
            then tbl_emu_log db
            else (tbl_emu_log db
                    ++ [{| date := date; emuNo := emuNo;
                           trainNo := trainNo |}])%list)
      /\ tbl_emu_qrcode (processRow fault b i (emuNo, qrCode, id) db).1.2
         = tbl_emu_qrcode db)
  /\ (forall e,
        trainNo <> "" ->
        fault (OpInsert i
                 {| date := date; emuNo := emuNo; trainNo := trainNo |})
          = Some e ->
        (processRow fault b i (emuNo, qrCode, id) db).1 = (Exit 1, db))
  /\ (fault (OpInsert i
               {| date := date; emuNo := emuNo; trainNo := trainNo |})
        = None ->
      ({| date := date; emuNo := emuNo; trainNo := trainNo |}
         ∈ tbl_emu_log (processRow fault b i (emuNo, qrCode, id) db).1.2
       <-> trainNo <> ""
           \/ {| date := date; emuNo := emuNo; trainNo := trainNo |}
                ∈ tbl_emu_log db)).
Proof.
  intros HS HT. rewrite processRow_eq, HS, HT. cbn zeta.
  destruct (decide (trainNo = "")) as [-> | Hne].
  - split; [reflexivity |]. split; [reflexivity |].
    split; [intros H; now destruct H |].
    split; [intros e H; now destruct H |].
    intros _. cbn [fst snd]. split; [now right |].
    intros [H | H]; [now destruct H | exact H].
  - split; [destruct (fault (OpInsert i _)); reflexivity |].
    split; [contradiction |].
    split; [| split].
    + intros _ HI. rewrite HI. cbn [fst snd withLog tbl_emu_log tbl_emu_qrcode].
      split; [reflexivity |]. split; [apply insertOrIgnore_elem |].
      split; reflexivity.
    + intros e _ HI. rewrite HI. reflexivity.
    + intros HI. rewrite HI. cbn [fst snd withLog tbl_emu_log].
      split; [now left |]. intros _. apply insertOrIgnore_elem.
Qed.

Lemma insert_despite_error :
  callTrainNo Sample.careless "PQ0001"
    = Returns ("G101", "2026-10-30", Some "stale")
  /\ inserts (processRow Sample.noFault Sample.careless 0
                ("CRH1-001", "PQ0001", 0%Z) Sample.db0).2
     = [Sample.g101]
  /\ tbl_emu_log (processRow Sample.noFault Sample.careless 0
                    ("CRH1-001", "PQ0001", 0%Z) Sample.db0).1.2
     = [Sample.g101].
Proof.
  assert (HT : callTrainNo Sample.careless "PQ0001"
               = Returns ("G101", "2026-10-30", Some "stale"))
    by reflexivity.
  split; [exact HT |].
  destruct (insert_iff_trainNo_nonempty Sample.noFault Sample.careless
              0 "CRH1-001" "PQ0001" 0%Z Sample.db0 "G101" "2026-10-30"
              (Some "stale") eq_refl HT) as (Hins & _ & Hrow & _).
  split; [exact Hins |].
  destruct (Hrow ltac:(discriminate) eq_refl) as (_ & _ & Htbl & _).
  rewrite Htbl. reflexivity.
Defined.

(** The panic of a resolver is not recovered: it ends the batch, and the
    vehicles after the one it struck are never read. *)
Lemma panic_ends_batch fault b i emuNo qrCode id rest db msg :
  fault (OpNext i) = None ->
  fault (OpScan i (emuNo, qrCode, id)) = None ->
  callTrainNo b qrCode = Panics msg ->
  iterRows fault b ((emuNo, qrCode, id) :: rest) i db
  = (Panic msg, db,
     Call (OpNext i) None :: upToResolve b i (emuNo, qrCode, id)).
Proof.
  intros HN HS HT. rewrite iterRows_cons, HN, processRow_eq, HS, HT.
  reflexivity.
Qed.

(** The uniqueness constraint of the log table holds after a batch when it
    held before. *)
Lemma processRow_unique fault b i row db :
  unique_log (tbl_emu_log db) ->
  unique_log (tbl_emu_log (processRow fault b i row db).1.2).
Proof.
  intros Hu. destruct row as [[emuNo qrCode] id]. rewrite processRow_eq.
  destruct (fault (OpScan _ _)); [assumption |].
  destruct (callTrainNo b qrCode) as [[[trainNo date] err] | msg];
    [| assumption].
  cbn zeta. destruct (decide (trainNo = "")); [assumption |].
  destruct (fault (OpInsert _ _)); [assumption |].
  cbn. now apply insertOrIgnore_unique.
Qed.

Lemma iterRows_unique fault b rows :
  forall i db,
    unique_log (tbl_emu_log db) ->
    unique_log (tbl_emu_log (iterRows fault b rows i db).1.2).
Proof.
  induction rows as [| row rest IH]; intros i db Hu; [assumption |].
  rewrite iterRows_cons. destruct (fault (OpNext i)); [assumption |].
  pose proof (processRow_unique fault b i row db Hu) as Hp.
  destruct (processRow fault b i row db) as [[res1 db1] evs1]; cbn in Hp.
  destruct res1 as [u | status | msg]; try assumption.
  specialize (IH (S i) db1 Hp).
  now destruct (iterRows fault b rest (S i) db1) as [[res2 db2] evs2].
Qed.

Lemma iterVehicles_unique fault b db :
  unique_log (tbl_emu_log db) ->
  unique_log (tbl_emu_log (iterVehicles fault b db).1.2).
Proof.
  intros Hu. rewrite iterVehicles_eq. cbn zeta.
  destruct (fault (OpQuery (Code b))); [assumption |].
  pose proof (iterRows_unique fault b
                (selectVehicles (tbl_emu_qrcode db) (Code b)) 0 db Hu) as Hr.
  now destruct (iterRows fault b _ 0 db) as [[[u | status | msg] db1] evs].
Qed.

End RunnerFacts.

(** ** Further properties of the scheduler *)

Module SchedulerProperties.
Import GoTime Scheduler MainLoop SchedulerFacts.
Local Open Scope Z_scope.

Lemma nextRun_FixedZone_cases off now :
  (timeOfDay (FixedZone off) now < clock 5 0
   /\ nextRun (FixedZone off) now = today (FixedZone off) now + startTime)
  \/ (clock 5 0 <= timeOfDay (FixedZone off) now
      /\ nextRun (FixedZone off) now = now / Hour * Hour + Hour).
Proof.
  pose proof (now_split off now) as Hs.
  pose proof (timeOfDay_range (FixedZone off) now) as Hr.
  destruct (Z.lt_ge_cases (timeOfDay (FixedZone off) now) (clock 5 0)).
  - left. split; [assumption |]. apply nextRun_before. unfold_units. lia.
  - right. split; [assumption |]. apply nextRun_within. unfold_units. lia.
Qed.

Lemma nextRun_FixedZone_bounds off now :
  now < nextRun (FixedZone off) now <= now + 5 * Hour.
Proof.
  pose proof (now_split off now) as Hs.
  pose proof (timeOfDay_range (FixedZone off) now) as Hr.
  destruct (nextRun_FixedZone_cases off now) as [[Hlt ->] | [Hge ->]].
  - unfold_units. lia.
  - pose proof (Z.div_mod now Hour ltac:(discriminate)).
    pose proof (Z.mod_pos_bound now Hour ltac:(reflexivity)).
    unfold_units. lia.
Qed.

(** X1: where the clocks never change, the next run is always later than
    the current time, by at most five hours. *)
Theorem nextRun_is_ahead off now :
  now < nextRun (FixedZone off) now <= now + 5 * Hour.
Proof. apply nextRun_FixedZone_bounds. Qed.

(** X2: in a zone a whole number of hours from UTC, the local clock at the
    next run reads 05:00 of the same day when it is before 05:00 now, the
    next whole hour of the same day when it is between 05:00 and 23:00
    now, and 00:00 of the following day when it is 23:00 or later now: a
    run at midnight, five hours before the window starts. *)
Theorem nextRun_local_reading h now :
  (timeOfDay (FixedZone (h * 3600)) now < clock 5 0 ->
   localDay (FixedZone (h * 3600)) (nextRun (FixedZone (h * 3600)) now)
     = localDay (FixedZone (h * 3600)) now
   /\ timeOfDay (FixedZone (h * 3600)) (nextRun (FixedZone (h * 3600)) now)
      = clock 5 0)
  /\ (clock 5 0 <= timeOfDay (FixedZone (h * 3600)) now < clock 23 0 ->
      localDay (FixedZone (h * 3600)) (nextRun (FixedZone (h * 3600)) now)
        = localDay (FixedZone (h * 3600)) now
      /\ timeOfDay (FixedZone (h * 3600)) (nextRun (FixedZone (h * 3600)) now)
         = (timeOfDay (FixedZone (h * 3600)) now / Hour + 1) * Hour)
  /\ (clock 23 0 <= timeOfDay (FixedZone (h * 3600)) now ->
      localDay (FixedZone (h * 3600)) (nextRun (FixedZone (h * 3600)) now)
        = localDay (FixedZone (h * 3600)) now + 1
      /\ timeOfDay (FixedZone (h * 3600)) (nextRun (FixedZone (h * 3600)) now)
         = 0).
Proof.
  pose proof (now_split (h * 3600) now) as Hs.
  pose proof (timeOfDay_range (FixedZone (h * 3600)) now) as Hr.
  split; [| split]; intros H.
  - rewrite nextRun_before by (unfold_units; lia).
    apply reading_of_today_plus. unfold_units. lia.
  - rewrite nextRun_within by (unfold_units; lia).
    revert H. unfold localDay, timeOfDay, unixSec, nsecOf.
    rewrite !offsetAt_FixedZone. unfold_units. intros H.
    split; Z.div_mod_to_equations; lia.
  - rewrite nextRun_within by (unfold_units; lia).
    revert H. unfold localDay, timeOfDay, unixSec, nsecOf.
    rewrite !offsetAt_FixedZone. unfold_units. intros H.
    split; Z.div_mod_to_equations; lia.
Qed.

Lemma nextRun_local_reading_2330 :
  clock 23 0 <= timeOfDay Beijing (beijing 23 30)
  /\ localDay Beijing (nextRun Beijing (beijing 23 30))
     = localDay Beijing (beijing 23 30) + 1
  /\ timeOfDay Beijing (nextRun Beijing (beijing 23 30)) = 0.
Proof.
  assert (H : clock 23 0 <= timeOfDay Beijing (beijing 23 30))
    by (vm_compute; discriminate).
  split; [exact H |].
  exact (proj2 (proj2 (nextRun_local_reading 8 (beijing 23 30))) H).
Defined.

Lemma Sub_small t u :
  minDuration <= t - u <= maxDuration -> Sub t u = t - u.
Proof.
  intros [H1 H2]. unfold Sub.
  destruct (Z.ltb_spec (t - u) minDuration); [lia |].
  destruct (Z.ltb_spec maxDuration (t - u)); [lia | reflexivity].
Qed.

Lemma Sub_negative t u : t - u <= 0 -> Sub t u <= 0.
Proof.
  intros H. unfold Sub, minDuration, maxDuration.
  destruct (Z.ltb_spec (t - u) (- 2 ^ 63)); [lia |].
  destruct (Z.ltb_spec (2 ^ 63 - 1) (t - u)); lia.
Qed.

(** X3: where the clocks never change, an iteration of the loop of
    [main] schedules the next run after its own start, and the following
    iteration begins no earlier than that time and no earlier than the end
    of the round; it begins exactly at the later of the two when the sleep
    is exact.  A round that overruns delays the next one and skips
    none. *)
Theorem iteration_makes_progress off now elapsed lag :
  0 <= elapsed -> 0 <= lag ->
  now < (iteration (FixedZone off) now elapsed lag).1
  /\ (iteration (FixedZone off) now elapsed lag).1
       <= (iteration (FixedZone off) now elapsed lag).2
  /\ now + elapsed <= (iteration (FixedZone off) now elapsed lag).2
  /\ (lag = 0 ->
      (iteration (FixedZone off) now elapsed lag).2
      = Z.max (nextRun (FixedZone off) now) (now + elapsed)).
Proof.
  intros He Hl. unfold iteration; cbn [fst snd].
  pose proof (nextRun_FixedZone_bounds off now) as Hn.
  generalize dependent (nextRun (FixedZone off) now). intros nr Hn.
  unfold Sleep, Until.
  destruct (Z.le_gt_cases (nr - (now + elapsed)) 0) as [Hle | Hgt].
  - pose proof (Sub_negative nr (now + elapsed) Hle) as Hs.
    apply Z.leb_le in Hs. rewrite Hs. lia.
  - rewrite Sub_small
      by (unfold minDuration, maxDuration; unfold_units; lia).
    destruct (Z.leb_spec (nr - (now + elapsed)) 0); lia.
Qed.

Lemma iteration_at_0300 :
  0 <= 8 * Second
  /\ (iteration Beijing (beijing 3 0) (8 * Second) 0).1 = beijing 5 0
  /\ (iteration Beijing (beijing 3 0) (8 * Second) 0).2 = beijing 5 0.
Proof.
  assert (H : 0 <= 8 * Second) by discriminate.
  split; [exact H |]. split; [vm_compute; reflexivity |].
  destruct (iteration_makes_progress (8 * 3600) (beijing 3 0) (8 * Second) 0
              H ltac:(reflexivity)) as (_ & _ & _ & Hw).
  unfold Beijing. rewrite (Hw eq_refl). vm_compute. reflexivity.
Defined.

End SchedulerProperties.

(** ** Further properties of the resolvers and of the SQL statements *)

Module ResolverProperties.
Import Go Resolver Extract ResolverFacts.

Lemma assertString_stringField (info : JsonObject) k :
  match assertString (index info k) with
  | Returns s => stringField info k = Some s
  | Panics _ => stringField info k = None
  end.
Proof.
  unfold index, stringField.
  destruct (info !! k) as [[] |]; reflexivity.
Qed.

(** X4: what a resolver of the source does is decided by the answer of
    its provider adapter alone.  It returns without an error exactly the
    pair the record stands for, taken verbatim; it returns the error of
    the adapter with an empty train number and date; and it panics
    exactly when the adapter succeeded with a record that stands for no
    pair. *)
Theorem TrainNo_outcomes nowDate (infoH infoP : InfoFn) b qrCode :
  b ∈ bureaus nowDate infoH infoP ->
  match callTrainNo b qrCode with
  | Returns (t, d, None) =>
      (Info b qrCode).2 = None
      /\ extracted nowDate (Code b) (Info b qrCode).1 = Some (t, d)
  | Returns (t, d, Some e) =>
      (Info b qrCode).2 = Some e /\ t = "" /\ d = ""
  | Panics _ =>
      (Info b qrCode).2 = None
      /\ extracted nowDate (Code b) (Info b qrCode).1 = None
  end.
Proof.
  unfold bureaus, callTrainNo.
  intros Hb; apply list_elem_of_In in Hb.
  destruct Hb as [<- | [<- | []]]; cbn [TrainNo Info Code bureauH bureauP].
  - unfold TrainNo_H, extracted. cbn.
    destruct (infoH qrCode) as [info [e |]]; cbn; [now repeat split |].
    pose proof (assertString_stringField info "trainName") as H.
    destruct (assertString (index info "trainName")); rewrite H; now split.
  - unfold TrainNo_P, extracted. cbn.
    destruct (infoP qrCode) as [info [e |]]; cbn; [now repeat split |].
    pose proof (assertString_stringField info "TrainnoId") as H1.
    pose proof (assertString_stringField info "TrainnoDate") as H2.
    destruct (assertString (index info "TrainnoId")); rewrite H1; cbn;
      [| now split].
    destruct (assertString (index info "TrainnoDate")); rewrite H2; now split.
Qed.

Lemma TrainNo_outcomes_beijing :
  bureauP Cases.providerP
    ∈ bureaus "2026-10-30" Sample.provider Cases.providerP
  /\ callTrainNo (bureauP Cases.providerP) "QR0001"
     = Returns ("G7", "2026-10-29", None).
Proof.
  assert (Hb : bureauP Cases.providerP
               ∈ bureaus "2026-10-30" Sample.provider Cases.providerP)
    by (right; left).
  split; [exact Hb |].
  pose proof (TrainNo_outcomes _ _ _ _ "QR0001" Hb) as H.
  destruct (callTrainNo _ "QR0001") as [[[t d] [e |]] | msg].
  - destruct H as [H _]. discriminate H.
  - destruct H as [_ H]. vm_compute in H. now injection H as <- <-.
  - destruct H as [_ H]. vm_compute in H. discriminate H.
Defined.

End ResolverProperties.

Module StorageProperties.
Import Go Storage StorageFacts Committed.

Lemma insertOrIgnore_old tbl r : r ∈ tbl -> insertOrIgnore tbl r = tbl.
Proof. intros H. unfold insertOrIgnore. now rewrite decide_True. Qed.

Lemma insertOrIgnore_new tbl r :
  r ∉ tbl -> insertOrIgnore tbl r = (tbl ++ [r])%list.
Proof. intros H. unfold insertOrIgnore. now rewrite decide_False. Qed.

(** Two inserts in either order leave the same rows. *)
Lemma inserts_commute tbl a b :
  insertOrIgnore (insertOrIgnore tbl a) b
    ≡ₚ insertOrIgnore (insertOrIgnore tbl b) a.
Proof.
  destruct (decide (a ∈ tbl)) as [Ha | Ha];
    destruct (decide (b ∈ tbl)) as [Hb | Hb].
  - now rewrite (insertOrIgnore_old tbl a Ha), (insertOrIgnore_old tbl b Hb),
      (insertOrIgnore_old tbl a Ha).
  - rewrite (insertOrIgnore_old tbl a Ha), (insertOrIgnore_new tbl b Hb).
    rewrite (insertOrIgnore_old (tbl ++ [b]) a); [reflexivity |].
    apply elem_of_app. now left.
  - rewrite (insertOrIgnore_old tbl b Hb), (insertOrIgnore_new tbl a Ha).
    rewrite (insertOrIgnore_old (tbl ++ [a]) b); [reflexivity |].
    apply elem_of_app. now left.
  - rewrite (insertOrIgnore_new tbl a Ha), (insertOrIgnore_new tbl b Hb).
    destruct (decide (a = b)) as [-> | Hne]; [reflexivity |].
    rewrite (insertOrIgnore_new (tbl ++ [a]) b),
      (insertOrIgnore_new (tbl ++ [b]) a).
    + rewrite <- !app_assoc. apply Permutation_app_head. cbn.
      apply perm_swap.
    + rewrite elem_of_app, list_elem_of_singleton. tauto.
    + rewrite elem_of_app, list_elem_of_singleton.
      intros [H | H]; [contradiction | congruence].
Qed.

Lemma insertOrIgnore_perm tbl tbl' r :
  tbl ≡ₚ tbl' -> insertOrIgnore tbl r ≡ₚ insertOrIgnore tbl' r.
Proof.
  intros H. unfold insertOrIgnore.
  destruct (decide (r ∈ tbl)) as [Hin | Hin];
    destruct (decide (r ∈ tbl')) as [Hin' | Hin'].
  - exact H.
  - destruct Hin'. now rewrite <- H.
  - destruct Hin. now rewrite H.
  - now apply Permutation_app_tail.
Qed.

Lemma insertAll_perm_start rows :
  forall tbl tbl', tbl ≡ₚ tbl' -> insertAll tbl rows ≡ₚ insertAll tbl' rows.
Proof.
  induction rows as [| r rows IH]; intros tbl tbl' H; [exact H |].
  cbn. apply IH. now apply insertOrIgnore_perm.
Qed.

Lemma insertAll_perm rows rows' :
  rows ≡ₚ rows' ->
  forall tbl, insertAll tbl rows ≡ₚ insertAll tbl rows'.
Proof.
  induction 1 as [| x l l' Hl IH | x y l | l l' l'' H1 IH1 H2 IH2];
    intros tbl.
  - reflexivity.
  - cbn. apply IH.
  - cbn. apply insertAll_perm_start, inserts_commute.
  - etransitivity; [apply IH1 | apply IH2].
Qed.

(** X5: a sequence of INSERT OR IGNORE statements on the log table leaves
    the same rows in whatever order the statements are executed; only the
    order of the rows in the table can differ. *)
Theorem inserts_in_any_order tbl rows rows' :
  rows ≡ₚ rows' -> insertAll tbl rows ≡ₚ insertAll tbl rows'.
Proof. intros H. now apply insertAll_perm. Qed.

Lemma inserts_in_any_order_sample :
  [Sample.g101; Cases.g7; Sample.g101] ≡ₚ [Cases.g7; Sample.g101; Sample.g101]
  /\ insertAll [] [Sample.g101; Cases.g7; Sample.g101]
       ≡ₚ insertAll [] [Cases.g7; Sample.g101; Sample.g101].
Proof.
  assert (H : [Sample.g101; Cases.g7; Sample.g101]
                ≡ₚ [Cases.g7; Sample.g101; Sample.g101])
    by apply perm_swap.
  split; [exact H |].
  exact (inserts_in_any_order [] _ _ H).
Defined.

Lemma sorted_rows (groups : list QrCodeRow) :
  StronglySorted before groups ->
  StronglySorted (fun x y : ResultRow => String_as_OT.lt x.1.1 y.1.1)
    ((fun g => (emu_no g, emu_qrcode g, rowid g)) <$> groups).
Proof.
  induction 1 as [| g rest Hs IH Hall]; cbn; constructor; [assumption |].
  apply Forall_fmap. exact Hall.
Qed.

(** Two strictly ascending lists with the same rows are the same list. *)
Lemma sorted_rows_ext (l1 l2 : list ResultRow) :
  StronglySorted (fun x y : ResultRow => String_as_OT.lt x.1.1 y.1.1) l1 ->
  StronglySorted (fun x y : ResultRow => String_as_OT.lt x.1.1 y.1.1) l2 ->
  (forall x, x ∈ l1 <-> x ∈ l2) ->
  l1 = l2.
Proof.
  intros H1. revert l2.
  induction H1 as [| x1 l1 Hs1 IH Hall1]; intros l2 H2 Hiff.
  - destruct l2 as [| x2 l2]; [reflexivity |].
    assert (H : x2 ∈ @nil ResultRow) by (apply Hiff; left).
    now apply elem_of_nil in H.
  - destruct H2 as [| x2 l2 Hs2 Hall2].
    { assert (H : x1 ∈ @nil ResultRow) by (apply Hiff; left).
      now apply elem_of_nil in H. }
    assert (E : x1 = x2).
    { assert (Hx1 : x1 ∈ x2 :: l2) by (apply Hiff; left).
      assert (Hx2 : x2 ∈ x1 :: l1) by (apply Hiff; left).
      apply elem_of_cons in Hx1 as [-> | Hx1]; [reflexivity |].
      apply elem_of_cons in Hx2 as [-> | Hx2]; [reflexivity |].
      apply (proj1 (Forall_forall _ _) Hall2) in Hx1.
      apply (proj1 (Forall_forall _ _) Hall1) in Hx2.
      destruct (lt_irrefl x1.1.1). eapply lt_trans; eassumption. }
    subst x2. f_equal. apply IH; [assumption |].
    intros x. split; intros Hx.
    + assert (Hx' : x ∈ x1 :: l2) by (apply Hiff; now right).
      apply elem_of_cons in Hx' as [-> | Hx']; [| assumption].
      apply (proj1 (Forall_forall _ _) Hall1) in Hx.
      now apply lt_irrefl in Hx.
    + assert (Hx' : x ∈ x1 :: l1) by (apply Hiff; now right).
      apply elem_of_cons in Hx' as [-> | Hx']; [| assumption].
      apply (proj1 (Forall_forall _ _) Hall2) in Hx.
      now apply lt_irrefl in Hx.
Qed.

Lemma NoDup_fmap_member {A B} (f : A -> B) (l : list A) x y :
  NoDup (f <$> l) -> x ∈ l -> y ∈ l -> f x = f y -> x = y.
Proof.
  induction l as [| a l IH]; cbn; intros Hnd Hx Hy E.
  - now apply elem_of_nil in Hx.
  - apply NoDup_cons in Hnd as [Ha Hnd].
    apply elem_of_cons in Hx as [-> | Hx], Hy as [-> | Hy]; auto.
    + destruct Ha. rewrite E. apply list_elem_of_fmap. now exists y.
    + destruct Ha. rewrite <- E. apply list_elem_of_fmap. now exists x.
Qed.

Lemma selectVehicles_perm_elem tbl1 tbl2 code x :
  tbl1 ≡ₚ tbl2 ->
  NoDup (rowid <$> tbl1) ->
  x ∈ selectVehicles tbl1 code -> x ∈ selectVehicles tbl2 code.
Proof.
  intros Hperm Hnd Hx. destruct x as [[v q] i].
  destruct (selectVehicles_earliest _ _ _ _ _ Hx)
    as (r & Hr & Hb & Hv & Hq & Hi & Hmin).
  assert (Hr2 : r ∈ tbl2) by now rewrite <- Hperm.
  assert (Hkey : v ∈ (selectVehicles tbl2 code).*1.*1).
  { apply selectVehicles_vehicles. now exists r. }
  apply list_elem_of_fmap in Hkey as ([v' q'] & Ev & Hkey). cbn in Ev. subst v'.
  apply list_elem_of_fmap in Hkey as ([vq i'] & Ey & Hy). cbn in Ey. subst vq.
  destruct (selectVehicles_earliest _ _ _ _ _ Hy)
    as (r' & Hr' & Hb' & Hv' & Hq' & Hi' & Hmin').
  assert (Hr1' : r' ∈ tbl1) by now rewrite Hperm.
  assert (E : r = r').
  { apply (NoDup_fmap_member rowid tbl1); auto.
    pose proof (Hmin r' Hr1' Hb' Hv').
    pose proof (Hmin' r Hr2 Hb Hv). lia. }
  subst r'. assert (q' = q) as -> by congruence.
  assert (i' = i) as -> by congruence. exact Hy.
Qed.

(** X6: the selection depends on the rows of the scan-code table, not on
    the order in which the table holds them. *)
Theorem selection_ignores_row_order tbl1 tbl2 code :
  tbl1 ≡ₚ tbl2 ->
  NoDup (rowid <$> tbl1) ->
  selectVehicles tbl1 code = selectVehicles tbl2 code.
Proof.
  intros Hperm Hnd.
  apply sorted_rows_ext.
  - apply sorted_rows, groupByEmuNo_sorted.
  - apply sorted_rows, groupByEmuNo_sorted.
  - intros x. split; apply selectVehicles_perm_elem; auto.
    + now symmetry.
    + now rewrite <- Hperm.
Qed.

Lemma selection_ignores_row_order_sample :
  Sample.table ≡ₚ reverse Sample.table
  /\ NoDup (rowid <$> Sample.table)
  /\ selectVehicles (reverse Sample.table) "H" = Cases.selection.
Proof.
  assert (Hp : Sample.table ≡ₚ reverse Sample.table)
    by (symmetry; apply reverse_Permutation).
  assert (Hn : NoDup (rowid <$> Sample.table))
    by (apply (bool_decide_unpack _); vm_compute; exact I).
  split; [exact Hp |]. split; [exact Hn |].
  rewrite <- (selection_ignores_row_order _ _ "H" Hp Hn). reflexivity.
Defined.

End StorageProperties.

(** ** What a batch does to the database *)

Module BatchFacts.
Import Go Resolver Storage Runner StorageFacts RunnerFacts Batch.
Import StorageProperties.

Lemma insertOrIgnore_prefix tbl r : tbl `prefix_of` insertOrIgnore tbl r.
Proof.
  unfold insertOrIgnore. case_decide; [reflexivity |].
  now apply prefix_app_r.
Qed.

Lemma insertOrIgnore_rows tbl r x :
  x ∈ insertOrIgnore tbl r <-> x = r \/ x ∈ tbl.
Proof.
  unfold insertOrIgnore. case_decide as Hin.
  - split; [now right | intros [-> | H]; assumption].
  - rewrite elem_of_app, list_elem_of_singleton. tauto.
Qed.

Lemma withLog_present db r : r ∈ tbl_emu_log db -> withLog db r = db.
Proof.
  intros H. unfold withLog. rewrite insertOrIgnore_old by assumption.
  now destruct db.
Qed.

(** What one round does to the database. *)
Lemma processRow_db fault b i row db :
  (processRow fault b i row db).1.2 = db
  \/ exists r, candidate b row = Some r
               /\ (processRow fault b i row db).1 = (Ok (), withLog db r).
Proof.
  destruct row as [[emuNo qrCode] id]. rewrite processRow_eq.
  unfold candidate; cbn [fst snd].
  destruct (fault (OpScan _ _)); [now left |].
  destruct (callTrainNo b qrCode) as [[[trainNo date] err] | msg];
    [| now left].
  cbn zeta. destruct (decide (trainNo = "")); [now left |].
  destruct (fault (OpInsert _ _)); [now left |].
  right. eexists. split; reflexivity.
Qed.

(** A round that meets no failure and no panic ends normally, with its
    candidate in the log table. *)
Lemma processRow_clean fault b i row db :
  (forall op, fault op = None) ->
  (forall msg, callTrainNo b row.1.2 <> Panics msg) ->
  (processRow fault b i row db).1
  = (Ok (), match candidate b row with
            | Some r => withLog db r
            | None => db
            end).
Proof.
  intros Hf Hp. destruct row as [[emuNo qrCode] id]. rewrite processRow_eq.
  unfold candidate; cbn [fst snd] in *. rewrite Hf.
  destruct (callTrainNo b qrCode) as [[[trainNo date] err] | msg];
    [| now destruct (Hp msg)].
  cbn zeta. destruct (decide (trainNo = "")); [reflexivity |].
  now rewrite Hf.
Qed.

Lemma iterRows_append_only fault b rows :
  forall i db,
    tbl_emu_qrcode (iterRows fault b rows i db).1.2 = tbl_emu_qrcode db
    /\ tbl_emu_log db `prefix_of` tbl_emu_log (iterRows fault b rows i db).1.2.
Proof.
  induction rows as [| row rest IH]; intros i db; [now split |].
  rewrite iterRows_cons. destruct (fault (OpNext i)); [now split |].
  assert (Hp : tbl_emu_qrcode (processRow fault b i row db).1.2
               = tbl_emu_qrcode db
               /\ tbl_emu_log db
                    `prefix_of` tbl_emu_log (processRow fault b i row db).1.2).
  { destruct (processRow_db fault b i row db) as [-> | (r & _ & ->)];
      [now split |].
    split; [reflexivity | apply insertOrIgnore_prefix]. }
  destruct (processRow fault b i row db) as [[res1 db1] evs1]; cbn in Hp.
  destruct res1 as [u | status | msg]; try exact Hp.
  specialize (IH (S i) db1).
  destruct (iterRows fault b rest (S i) db1) as [[res2 db2] evs2]; cbn in *.
  destruct Hp as [Hq Hl], IH as [IHq IHl]. split; [congruence |].
  etransitivity; eassumption.
Qed.

Lemma candidates_cons b row rest r :
  r ∈ candidates b (row :: rest)
  <-> candidate b row = Some r \/ r ∈ candidates b rest.
Proof.
  unfold candidates. rewrite !list_elem_of_omap. split.
  - intros (x & Hx & Hc). apply elem_of_cons in Hx as [-> | Hx];
      [now left | right; now exists x].
  - intros [Hc | (x & Hx & Hc)];
      [exists row; split; [left | exact Hc]
      | exists x; split; [now right | exact Hc]].
Qed.

Lemma iterRows_provenance fault b rows :
  forall i db r,
    r ∈ tbl_emu_log (iterRows fault b rows i db).1.2 ->
    r ∈ tbl_emu_log db \/ r ∈ candidates b rows.
Proof.
  induction rows as [| row rest IH]; intros i db r; [now left |].
  rewrite iterRows_cons, candidates_cons.
  destruct (fault (OpNext i)); [now left |].
  assert (Hp : forall x, x ∈ tbl_emu_log (processRow fault b i row db).1.2 ->
                         x ∈ tbl_emu_log db \/ candidate b row = Some x).
  { intros x. destruct (processRow_db fault b i row db) as [-> | (c & Hc & ->)];
      [now left |].
    cbn. rewrite insertOrIgnore_rows. intros [-> | H]; [now right | now left]. }
  destruct (processRow fault b i row db) as [[res1 db1] evs1];
    cbn [fst snd] in Hp.
  destruct res1 as [u | status | msg];
    try (cbn [fst snd]; intros H; destruct (Hp r H); tauto).
  specialize (IH (S i) db1 r).
  destruct (iterRows fault b rest (S i) db1) as [[res2 db2] evs2];
    cbn [fst snd] in *.
  intros H. destruct (IH H) as [H1 | H2]; [| tauto].
  destruct (Hp r H1); tauto.
Qed.

Lemma iterRows_complete fault b rows :
  (forall op, fault op = None) ->
  noPanic b rows ->
  forall i db,
    (iterRows fault b rows i db).1.1 = Ok ()
    /\ forall r, r ∈ candidates b rows ->
                 r ∈ tbl_emu_log (iterRows fault b rows i db).1.2.
Proof.
  intros Hf. induction rows as [| row rest IH]; intros Hp i db.
  - split; [reflexivity |]. intros r H. now apply elem_of_nil in H.
  - rewrite iterRows_cons, Hf.
    pose proof (processRow_clean fault b i row db Hf
                  (fun msg => Hp row msg ltac:(left))) as Hrow.
    destruct (processRow fault b i row db) as [[res1 db1] evs1];
      cbn [fst snd] in Hrow.
    injection Hrow as -> Hdb1.
    assert (Hp' : noPanic b rest).
    { intros x msg Hx. apply Hp. now right. }
    specialize (IH Hp' (S i) db1).
    pose proof (iterRows_append_only fault b rest (S i) db1) as [_ Hpre].
    destruct (iterRows fault b rest (S i) db1) as [[res2 db2] evs2];
      cbn [fst snd] in *.
    destruct IH as [-> IH]. split; [reflexivity |].
    intros r Hr. apply candidates_cons in Hr as [Hc | Hr]; [| now apply IH].
    rewrite Hc in Hdb1. subst db1.
    destruct Hpre as [k ->]. apply elem_of_app. left. cbn.
    apply insertOrIgnore_elem.
Qed.

Lemma iterRows_noop fault b rows :
  forall i db,
    (forall r, r ∈ candidates b rows -> r ∈ tbl_emu_log db) ->
    (iterRows fault b rows i db).1.2 = db.
Proof.
  induction rows as [| row rest IH]; intros i db Hin; [reflexivity |].
  rewrite iterRows_cons. destruct (fault (OpNext i)); [reflexivity |].
  assert (Hp : (processRow fault b i row db).1.2 = db).
  { destruct (processRow_db fault b i row db) as [H | (c & Hc & ->)];
      [exact H |].
    cbn. apply withLog_present, Hin, candidates_cons. now left. }
  destruct (processRow fault b i row db) as [[res1 db1] evs1];
    cbn [fst snd] in Hp.
  subst db1. destruct res1 as [u | status | msg]; try reflexivity.
  specialize (IH (S i) db).
  destruct (iterRows fault b rest (S i) db) as [[res2 db2] evs2];
    cbn [fst snd] in *.
  apply IH. intros r Hr. apply Hin, candidates_cons. now right.
Qed.

(** The database after [iterVehicles] is the one after its loop. *)
Lemma iterVehicles_db fault b db :
  (iterVehicles fault b db).1.2 = db
  \/ (fault (OpQuery (Code b)) = None
      /\ (iterVehicles fault b db).1.2
         = (iterRows fault b (selectVehicles (tbl_emu_qrcode db) (Code b))
              0 db).1.2
      /\ (iterVehicles fault b db).1.1
         = (iterRows fault b (selectVehicles (tbl_emu_qrcode db) (Code b))
              0 db).1.1).
Proof.
  rewrite iterVehicles_eq. cbn zeta.
  destruct (fault (OpQuery (Code b))); [now left |]. right.
  split; [reflexivity |].
  destruct (iterRows fault b _ 0 db) as [[[[] | status | msg] db1] evs];
    now split.
Qed.

Lemma candidate_inv b row r :
  candidate b row = Some r ->
  exists e, callTrainNo b row.1.2 = Returns (trainNo r, date r, e)
            /\ trainNo r <> "" /\ emuNo r = row.1.1.
Proof.
  unfold candidate.
  destruct (callTrainNo b row.1.2) as [[[t d] e] | msg]; [| discriminate].
  destruct (decide (t = "")); [discriminate |].
  intros [= <-]. cbn. now exists e.
Qed.

End BatchFacts.

(** ** The events of a batch *)

Module BatchTraceFacts.
Import Go Resolver Storage Runner StorageFacts RunnerFacts Batch.
Import StorageProperties.

(** *** Pauses before the provider is asked *)

Lemma paced_app l1 l2 : paced l1 -> paced l2 -> paced (l1 ++ l2).
Proof.
  intros H1 H2 k code qrCode Hk.
  destruct (decide (k < length l1)%nat) as [Hlt | Hge].
  - rewrite lookup_app_l in Hk by assumption.
    destruct (H1 _ _ _ Hk) as (k' & -> & Hk').
    exists k'. split; [reflexivity |].
    rewrite lookup_app_l by lia. exact Hk'.
  - rewrite lookup_app_r in Hk by lia.
    destruct (H2 _ _ _ Hk) as (k' & Hkk & Hk'). exists (length l1 + k')%nat.
    split; [lia |]. rewrite lookup_app_r by lia.
    now replace (length l1 + k' - length l1)%nat with k' by lia.
Qed.

Lemma paced_nil : paced [].
Proof. intros k code qrCode H. discriminate H. Qed.

Lemma paced_other ev evs :
  (forall code qrCode, ev <> Resolve code qrCode) ->
  paced evs -> paced (ev :: evs).
Proof.
  intros Hev H. apply (paced_app [ev]); [| exact H].
  intros [| k] code qrCode Hk; [| discriminate Hk].
  injection Hk as ->. now destruct (Hev code qrCode).
Qed.

Lemma paced_upToResolve b i row : paced (upToResolve b i row).
Proof.
  intros [| [| [| k]]] code qrCode Hk; try discriminate Hk.
  exists 1%nat. split; reflexivity.
Qed.

Ltac solve_paced :=
  repeat match goal with
    | |- paced [] => apply paced_nil
    | H : paced ?l |- paced ?l => exact H
    | |- paced (upToResolve _ _ _) => apply paced_upToResolve
    | |- paced (_ ++ _) => apply paced_app
    | |- paced (_ :: _) => apply paced_other; [intros ? ?; discriminate |]
    end.

Lemma processRow_paced fault b i row db :
  paced (processRow fault b i row db).2.
Proof.
  destruct row as [[emuNo qrCode] id]. rewrite processRow_eq.
  destruct (fault (OpScan _ _)); [cbn; solve_paced |].
  destruct (callTrainNo b qrCode) as [[[trainNo date] err] | msg];
    [| cbn; solve_paced].
  cbn zeta. destruct (decide (trainNo = "")); [cbn [snd]; solve_paced |].
  destruct (fault (OpInsert _ _)); cbn [snd]; unfold debugLine; solve_paced.
Qed.

Lemma iterRows_paced fault b rows :
  forall i db, paced (iterRows fault b rows i db).2.
Proof.
  induction rows as [| row rest IH]; intros i db.
  - rewrite iterRows_nil. cbn. solve_paced.
  - rewrite iterRows_cons. destruct (fault (OpNext i)); [cbn; solve_paced |].
    pose proof (processRow_paced fault b i row db) as Hp.
    destruct (processRow fault b i row db) as [[res1 db1] evs1];
      cbn [snd] in Hp.
    destruct res1 as [u | status | msg]; try (cbn; solve_paced).
    specialize (IH (S i) db1).
    destruct (iterRows fault b rest (S i) db1) as [[res2 db2] evs2].
    cbn [snd] in *. solve_paced.
Qed.

Lemma iterVehicles_paced fault b db : paced (iterVehicles fault b db).2.
Proof.
  rewrite iterVehicles_eq. cbn zeta.
  destruct (fault (OpQuery (Code b))); [cbn; solve_paced |].
  pose proof (iterRows_paced fault b
                (selectVehicles (tbl_emu_qrcode db) (Code b)) 0 db) as Hr.
  destruct (iterRows fault b _ 0 db) as [[[u | status | msg] db1] evs];
    cbn [snd] in *; solve_paced.
Qed.

(** *** The scan codes a batch asks about *)

Lemma resolved_app l1 l2 :
  resolved (l1 ++ l2) = (resolved l1 ++ resolved l2)%list.
Proof. apply omap_app. Qed.

Lemma processRow_resolved fault b i emuNo qrCode id db :
  resolved (processRow fault b i (emuNo, qrCode, id) db).2
    `prefix_of` [qrCode]
  /\ ((processRow fault b i (emuNo, qrCode, id) db).1.1 = Ok () ->
      resolved (processRow fault b i (emuNo, qrCode, id) db).2 = [qrCode]).
Proof.
  rewrite processRow_eq.
  destruct (fault (OpScan _ _)).
  { cbn. split; [apply prefix_nil | discriminate]. }
  destruct (callTrainNo b qrCode) as [[[trainNo date] err] | msg].
  2: { cbn. split; [reflexivity | discriminate]. }
  cbn zeta. destruct (decide (trainNo = "")); [cbn; now split |].
  destruct (fault (OpInsert _ _)); cbn; split; reflexivity || discriminate.
Qed.

Lemma iterRows_resolved fault b rows :
  forall i db, resolved (iterRows fault b rows i db).2 `prefix_of` rows.*1.*2.
Proof.
  induction rows as [| [[emuNo qrCode] id] rest IH]; intros i db.
  - rewrite iterRows_nil. cbn. reflexivity.
  - rewrite iterRows_cons. destruct (fault (OpNext i)); [apply prefix_nil |].
    destruct (processRow_resolved fault b i emuNo qrCode id db) as [Hp Hfull].
    destruct (processRow fault b i (emuNo, qrCode, id) db)
      as [[res1 db1] evs1]; cbn [fst snd] in Hp, Hfull.
    destruct res1 as [[] | status | msg].
    + specialize (IH (S i) db1).
      destruct (iterRows fault b rest (S i) db1) as [[res2 db2] evs2].
      cbn [snd] in *. change (resolved (Call (OpNext i) None :: evs1 ++ evs2))
        with (resolved (evs1 ++ evs2)).
      rewrite resolved_app, Hfull by reflexivity. cbn. now apply prefix_cons.
    + cbn [snd]. change (resolved (Call (OpNext i) None :: evs1))
        with (resolved evs1).
      etransitivity; [exact Hp |]. apply prefix_cons, prefix_nil.
    + cbn [snd]. change (resolved (Call (OpNext i) None :: evs1))
        with (resolved evs1).
      etransitivity; [exact Hp |]. apply prefix_cons, prefix_nil.
Qed.

Lemma iterVehicles_resolved fault b db :
  resolved (iterVehicles fault b db).2
    `prefix_of` (selectVehicles (tbl_emu_qrcode db) (Code b)).*1.*2.
Proof.
  rewrite iterVehicles_eq. cbn zeta.
  destruct (fault (OpQuery (Code b))); [apply prefix_nil |].
  pose proof (iterRows_resolved fault b
                (selectVehicles (tbl_emu_qrcode db) (Code b)) 0 db) as Hr.
  destruct (iterRows fault b _ 0 db) as [[[u | status | msg] db1] evs];
    cbn [snd] in *; try exact Hr.
  change (resolved (?a :: ?c :: ?l)) with (resolved l).
  rewrite resolved_app. cbn. now rewrite app_nil_r.
Qed.

Lemma prefix_NoDup {A} (l1 l2 : list A) :
  l1 `prefix_of` l2 -> NoDup l2 -> NoDup l1.
Proof. intros [k ->] H. now apply NoDup_app in H as [H _]. Qed.

Lemma selectVehicles_codes_NoDup tbl code :
  unique_qrcode tbl -> NoDup (selectVehicles tbl code).*1.*2.
Proof.
  intros Hu. unfold selectVehicles. rewrite <- !list_fmap_compose.
  apply NoDup_fmap_2_strong.
  - intros x y Hx Hy E. cbn in E.
    apply groupByEmuNo_elem, list_elem_of_filter in Hx as [Hbx Hx].
    apply groupByEmuNo_elem, list_elem_of_filter in Hy as [Hby Hy].
    eapply (NoDup_fmap_member (fun r => (emu_bureau r, emu_qrcode r)));
      eauto. cbn. congruence.
  - apply (NoDup_fmap_1 emu_no), sorted_NoDup, sorted_emu_no,
      groupByEmuNo_sorted.
Qed.

(** *** A failure of [rows.Next()] *)

Lemma processRow_no_next fault b i row db k j e :
  (processRow fault b i row db).2 !! k <> Some (Call (OpNext j) e).
Proof.
  destruct row as [[emuNo qrCode] id]. rewrite processRow_eq.
  destruct (fault (OpScan _ _)).
  { cbn. repeat first [discriminate | destruct k as [| k]; cbn]. }
  destruct (callTrainNo b qrCode) as [[[trainNo date] err] | msg].
  2: { cbn. repeat first [discriminate | destruct k as [| k]; cbn]. }
  cbn zeta. destruct (decide (trainNo = "")).
  { cbn. repeat first [discriminate | destruct k as [| k]; cbn]. }
  destruct (fault (OpInsert _ _)); cbn;
    repeat first [discriminate | destruct k as [| k]; cbn].
Qed.

Lemma iterRows_next_failure fault b rows :
  forall i0 db k i e,
    (iterRows fault b rows i0 db).2 !! k = Some (Call (OpNext i) (Some e)) ->
    (iterRows fault b rows i0 db).1.1 = Ok ()
    /\ S k = length (iterRows fault b rows i0 db).2
    /\ (i0 + length (scanned (iterRows fault b rows i0 db).2))%nat = i.
Proof.
  induction rows as [| [[emuNo qrCode] id] rest IH]; intros i0 db k i e.
  - rewrite iterRows_nil. cbn. destruct k as [| k]; [| discriminate].
    intros [= <- _]. repeat split. lia.
  - rewrite iterRows_cons. destruct (fault (OpNext i0)) as [e0 |].
    { cbn. destruct k as [| k]; [| discriminate].
      intros [= <- _]. repeat split. lia. }
    pose proof (processRow_no_next fault b i0 (emuNo, qrCode, id) db) as Hno.
    pose proof (processRow_scanned fault b i0 emuNo qrCode id db) as Hsc.
    destruct (processRow fault b i0 (emuNo, qrCode, id) db)
      as [[res1 db1] evs1]; cbn [snd] in Hno.
    destruct (Hsc _ _ _ eq_refl) as [_ Hfull].
    destruct res1 as [[] | status | msg].
    + specialize (IH (S i0) db1).
      destruct (iterRows fault b rest (S i0) db1) as [[res2 db2] evs2].
      cbn [fst snd] in *. intros Hk. destruct k as [| k]; [discriminate Hk |].
      change ((evs1 ++ evs2)%list !! k = Some (Call (OpNext i) (Some e))) in Hk.
      change (scanned (Call (OpNext i0) None :: (evs1 ++ evs2)%list))
        with (scanned (evs1 ++ evs2)%list).
      destruct (decide (k < length evs1)%nat).
      { rewrite lookup_app_l in Hk by assumption. now destruct (Hno _ _ _ Hk). }
      rewrite lookup_app_r in Hk by lia.
      destruct (IH _ _ _ Hk) as (-> & Hlen & Hi).
      rewrite scanned_app, Hfull by reflexivity.
      cbn [length]. rewrite !length_app. cbn [length]. repeat split; lia.
    + cbn [fst snd]. destruct k as [| k]; [discriminate |].
      intros Hk. now destruct (Hno _ _ _ Hk).
    + cbn [fst snd]. destruct k as [| k]; [discriminate |].
      intros Hk. now destruct (Hno _ _ _ Hk).
Qed.

Lemma prefix_take {A} (l1 l2 : list A) :
  l1 `prefix_of` l2 -> l1 = take (length l1) l2.
Proof. intros [k ->]. now rewrite take_app_length. Qed.

End BatchTraceFacts.

(** ** Further properties of the batch runner *)

Module BatchProperties.
Import Go Resolver Storage Runner StorageFacts RunnerFacts Batch.
Import BatchFacts BatchTraceFacts.

Lemma checkDatabase_db fault db : (checkDatabase fault db).1.2 = db.
Proof.
  unfold checkDatabase. run_monad.
  destruct (fault OpOpen); [reflexivity |]. cbn.
  destruct (fault (OpCreateTable "emu_log")); [reflexivity |]. cbn.
  destruct (fault (OpCount "emu_log")); [reflexivity |]. cbn.
  destruct (fault (OpCreateTable "emu_qrcode")); [reflexivity |]. cbn.
  destruct (fault (OpCount "emu_qrcode")); reflexivity.
Qed.

(** X7: the start-up check changes neither table; a batch never changes
    the scan-code table, and the log table it leaves begins with the log
    table it found: rows are only appended, never removed, changed or
    reordered, whatever fails. *)
Theorem batch_append_only fault b db :
  (checkDatabase fault db).1.2 = db
  /\ tbl_emu_qrcode (iterVehicles fault b db).1.2 = tbl_emu_qrcode db
  /\ tbl_emu_log db `prefix_of` tbl_emu_log (iterVehicles fault b db).1.2.
Proof.
  split; [apply checkDatabase_db |].
  destruct (iterVehicles_db fault b db) as [-> | (_ & -> & _)];
    [now split |].
  apply iterRows_append_only.
Qed.

(** X8: every row a batch adds to the log table comes from a vehicle of
    the selection and what the resolver returned for its scan code, with
    a train number that is not empty. *)
Theorem batch_rows_provenance fault b db r :
  r ∈ tbl_emu_log (iterVehicles fault b db).1.2 ->
  r ∈ tbl_emu_log db
  \/ exists q i e,
      (emuNo r, q, i) ∈ selectVehicles (tbl_emu_qrcode db) (Code b)
      /\ callTrainNo b q = Returns (trainNo r, date r, e)
      /\ trainNo r <> "".
Proof.
  destruct (iterVehicles_db fault b db) as [-> | (_ & -> & _)];
    [now left |].
  intros H. apply iterRows_provenance in H as [H | H]; [now left |].
  right. apply list_elem_of_omap in H as ([[v q] i] & Hrow & Hc).
  apply candidate_inv in Hc as (e & HT & Hne & Hv). cbn in HT, Hv.
  exists q, i, e. rewrite Hv. auto.
Qed.

Lemma batch_rows_provenance_sample :
  Sample.g101'
    ∈ tbl_emu_log (iterVehicles Sample.noFault Sample.shanghai Sample.db0).1.2
  /\ (Sample.g101' ∈ tbl_emu_log Sample.db0
      \/ exists q i e,
          (emuNo Sample.g101', q, i)
            ∈ selectVehicles (tbl_emu_qrcode Sample.db0) (Code Sample.shanghai)
          /\ callTrainNo Sample.shanghai q
             = Returns (trainNo Sample.g101', date Sample.g101', e)
          /\ trainNo Sample.g101' <> "").
Proof.
  assert (H : Sample.g101'
                ∈ tbl_emu_log
                    (iterVehicles Sample.noFault Sample.shanghai
                       Sample.db0).1.2)
    by (vm_compute; left).
  split; [exact H |].
  exact (batch_rows_provenance Sample.noFault Sample.shanghai Sample.db0
           Sample.g101' H).
Defined.

(** X9: when no call on the database fails and no resolver panics, the
    batch ends normally and the log table then holds, for every vehicle
    of the selection whose resolver returned a train number that is not
    empty, the row of the returned date, the vehicle and the train
    number. *)
Theorem batch_complete fault b db :
  (forall op, fault op = None) ->
  noPanic b (selectVehicles (tbl_emu_qrcode db) (Code b)) ->
  (iterVehicles fault b db).1.1 = Ok ()
  /\ forall v q i t d e,
      (v, q, i) ∈ selectVehicles (tbl_emu_qrcode db) (Code b) ->
      callTrainNo b q = Returns (t, d, e) ->
      t <> "" ->
      {| date := d; emuNo := v; trainNo := t |}
        ∈ tbl_emu_log (iterVehicles fault b db).1.2.
Proof.
  intros Hf Hp. rewrite iterVehicles_eq, (Hf (OpQuery (Code b))). cbn zeta.
  destruct (iterRows_complete fault b _ Hf Hp 0 db) as [Hok Hin].
  destruct (iterRows fault b _ 0 db) as [[res db1] evs]; cbn [fst snd] in *.
  subst res. cbn [fst snd]. split; [reflexivity |].
  intros v q i t d e Hrow HT Hne. apply Hin, list_elem_of_omap.
  exists (v, q, i). split; [exact Hrow |].
  unfold candidate; cbn. rewrite HT. now rewrite decide_False.
Qed.

Lemma noPanic_sample :
  noPanic Sample.shanghai
    (selectVehicles (tbl_emu_qrcode Sample.db0) (Code Sample.shanghai)).
Proof.
  change (selectVehicles _ _) with Cases.selection.
  intros row msg H. unfold Cases.selection in H.
  apply elem_of_cons in H as [-> | H]; [discriminate |].
  apply elem_of_cons in H as [-> | H]; [discriminate |].
  now apply elem_of_nil in H.
Defined.

Lemma batch_complete_sample :
  (iterVehicles Sample.noFault Sample.shanghai Sample.db0).1.1 = Ok ()
  /\ Sample.g101'
       ∈ tbl_emu_log
           (iterVehicles Sample.noFault Sample.shanghai Sample.db0).1.2.
Proof.
  destruct (batch_complete Sample.noFault Sample.shanghai Sample.db0
              (fun _ => eq_refl) noPanic_sample) as [Hok Hin].
  split; [exact Hok |].
  apply (Hin "CRH2-002" "PQ0002" 1%Z "G101" "2026-10-30" None).
  - right. left.
  - reflexivity.
  - discriminate.
Defined.

(** X10: after a batch without failures and panics, a second batch of the
    same bureau with the same answers of the provider leaves the database
    as it is, whatever fails during the second. *)
Theorem batch_twice fault b db fault' :
  (forall op, fault op = None) ->
  noPanic b (selectVehicles (tbl_emu_qrcode db) (Code b)) ->
  (iterVehicles fault' b (iterVehicles fault b db).1.2).1.2
  = (iterVehicles fault b db).1.2.
Proof.
  intros Hf Hp.
  destruct (iterVehicles_db fault' b (iterVehicles fault b db).1.2)
    as [H | (_ & -> & _)]; [exact H |].
  assert (Hq : tbl_emu_qrcode (iterVehicles fault b db).1.2
               = tbl_emu_qrcode db).
  { destruct (iterVehicles_db fault b db) as [-> | (_ & -> & _)];
      [reflexivity | apply iterRows_append_only]. }
  rewrite Hq. apply iterRows_noop.
  destruct (iterVehicles_db fault b db) as [_ | (_ & -> & _)].
  - rewrite iterVehicles_eq, (Hf (OpQuery (Code b))). cbn zeta.
    destruct (iterRows_complete fault b _ Hf Hp 0 db) as [_ Hin].
    now destruct (iterRows fault b _ 0 db) as [[[u | st | msg] db1] evs].
  - now destruct (iterRows_complete fault b _ Hf Hp 0 db) as [_ Hin].
Qed.

Lemma batch_twice_sample :
  (iterVehicles Sample.noFault Sample.shanghai Sample.db0).1.2 = Cases.db1
  /\ (iterVehicles Sample.insertFault Sample.shanghai Cases.db1).1.2
     = Cases.db1.
Proof.
  assert (H : (iterVehicles Sample.noFault Sample.shanghai Sample.db0).1.2
              = Cases.db1) by (vm_compute; reflexivity).
  split; [exact H |]. rewrite <- H at 1 2.
  exact (batch_twice Sample.noFault Sample.shanghai Sample.db0
           Sample.insertFault (fun _ => eq_refl) noPanic_sample).
Defined.

(** X11: in the events of a batch every call of a resolver comes directly
    after a pause of [requestDelay]: no provider is asked without the
    four seconds before. *)
Theorem resolver_calls_are_paced fault b db k code qrCode :
  (iterVehicles fault b db).2 !! k = Some (Resolve code qrCode) ->
  exists k',
    k = S k'
    /\ (iterVehicles fault b db).2 !! k' = Some (Sleep Scheduler.requestDelay).
Proof. apply iterVehicles_paced. Qed.

Lemma resolver_calls_are_paced_sample :
  (iterVehicles Sample.noFault Sample.shanghai Sample.db0).2 !! 5%nat
    = Some (Resolve "H" "PQ0001")
  /\ (iterVehicles Sample.noFault Sample.shanghai Sample.db0).2 !! 4%nat
     = Some (Sleep 4000000000%Z).
Proof.
  assert (H : (iterVehicles Sample.noFault Sample.shanghai Sample.db0).2
                !! 5%nat = Some (Resolve "H" "PQ0001")) by reflexivity.
  split; [exact H |].
  destruct (resolver_calls_are_paced Sample.noFault Sample.shanghai
              Sample.db0 5 "H" "PQ0001" H) as (k' & Hk & Hs).
  injection Hk as <-. exact Hs.
Defined.

(** X12: when the scan-code table satisfies its uniqueness constraint, a
    batch asks about no scan code twice, and only about scan codes of the
    selection, in its order. *)
Theorem no_scan_code_twice fault b db :
  unique_qrcode (tbl_emu_qrcode db) ->
  NoDup (resolved (iterVehicles fault b db).2)
  /\ resolved (iterVehicles fault b db).2
       `prefix_of` (selectVehicles (tbl_emu_qrcode db) (Code b)).*1.*2.
Proof.
  intros Hu. split; [| apply iterVehicles_resolved].
  eapply prefix_NoDup; [apply iterVehicles_resolved |].
  now apply selectVehicles_codes_NoDup.
Qed.

Lemma unique_qrcode_sample : unique_qrcode (tbl_emu_qrcode Sample.db0).
Proof.
  unfold unique_qrcode. apply (bool_decide_unpack _). vm_compute. exact I.
Defined.

Lemma no_scan_code_twice_sample :
  unique_qrcode (tbl_emu_qrcode Sample.db0)
  /\ NoDup (resolved
              (iterVehicles Sample.noFault Sample.shanghai Sample.db0).2).
Proof.
  split; [exact unique_qrcode_sample |].
  exact (proj1 (no_scan_code_twice Sample.noFault Sample.shanghai Sample.db0
                  unique_qrcode_sample)).
Defined.

(** X13: when [rows.Next()] fails before the row numbered [i], nothing
    reports it: the batch has read the first [i] vehicles of the
    selection, logs that the job is done and ends normally. *)
Theorem next_failure_is_silent fault b db k i e :
  (iterVehicles fault b db).2 !! k = Some (Call (OpNext i) (Some e)) ->
  (iterVehicles fault b db).1.1 = Ok ()
  /\ drop (S k) (iterVehicles fault b db).2
     = [Log InfoLevel ("job done: " +:+ Name b)]
  /\ scanned (iterVehicles fault b db).2
     = take i (selectVehicles (tbl_emu_qrcode db) (Code b)).*1.*1.
Proof.
  intros Hk.
  pose proof (iterVehicles_scanned fault b db) as [Hpre _].
  revert Hk Hpre. rewrite iterVehicles_eq. cbn zeta.
  destruct (fault (OpQuery (Code b))) as [e0 |].
  { cbn. repeat first [discriminate | destruct k as [| k]; cbn]. }
  pose proof (iterRows_next_failure fault b
                (selectVehicles (tbl_emu_qrcode db) (Code b)) 0 db) as Hr.
  destruct (iterRows fault b _ 0 db) as [[res db1] evs]; cbn [fst snd] in Hr.
  assert (Hin : forall l, (Log InfoLevel ("job started: " +:+ Name b)
                      :: Call (OpQuery (Code b)) None :: l) !! k
                     = Some (Call (OpNext i) (Some e)) ->
                     exists k', k = S (S k')
                                /\ l !! k' = Some (Call (OpNext i) (Some e))).
  { intros l H. destruct k as [| [| k]]; try discriminate H. now exists k. }
  destruct res as [[] | status | msg]; cbn [fst snd]; intros Hk Hpre.
  - apply Hin in Hk as (k' & -> & Hk).
    assert (Hlt : (k' < length evs)%nat).
    { destruct (decide (k' < length evs)%nat) as [Hlt | Hge]; [exact Hlt |].
      rewrite lookup_app_r in Hk by lia.
      destruct (k' - length evs)%nat; discriminate Hk. }
    rewrite lookup_app_l in Hk by assumption.
    destruct (Hr _ _ _ Hk) as (_ & Hlen & Hi). cbn in Hi.
    split; [reflexivity |]. split.
    + cbn [drop]. rewrite Hlen, drop_app_length. reflexivity.
    + assert (Hs : scanned
                     (Log InfoLevel ("job started: " +:+ Name b)
                        :: Call (OpQuery (Code b)) None
                        :: (evs ++ [Log InfoLevel ("job done: " +:+ Name b)])
                             %list)
                   = scanned evs).
      { change (scanned (?a :: ?c :: ?l)) with (scanned l).
        rewrite scanned_app. cbn. now rewrite app_nil_r. }
      rewrite Hs in *. rewrite <- Hi. now apply prefix_take.
  - apply Hin in Hk as (k' & -> & Hk). now destruct (Hr _ _ _ Hk).
  - apply Hin in Hk as (k' & -> & Hk). now destruct (Hr _ _ _ Hk).
Qed.

Lemma next_failure_is_silent_sample :
  (iterVehicles Cases.nextFault Sample.shanghai Sample.db0).2 !! 7%nat
    = Some (Call (OpNext 1) (Some "database is locked"))
  /\ (iterVehicles Cases.nextFault Sample.shanghai Sample.db0).1.1 = Ok ()
  /\ scanned (iterVehicles Cases.nextFault Sample.shanghai Sample.db0).2
     = ["CRH1-001"].
Proof.
  assert (H : (iterVehicles Cases.nextFault Sample.shanghai Sample.db0).2
                !! 7%nat
              = Some (Call (OpNext 1) (Some "database is locked")))
    by reflexivity.
  split; [exact H |].
  destruct (next_failure_is_silent Cases.nextFault Sample.shanghai Sample.db0
              7 1 "database is locked" H) as (Hok & _ & Hsc).
  split; [exact Hok |]. rewrite Hsc. reflexivity.
Defined.

End BatchProperties.

(** ** The checks before the loop *)

Module StartupProperties.
Import Go Resolver Storage Runner RunnerFacts Startup.
Import BatchProperties.

Lemma wrap64_seconds tzOffset :
  (- 2 ^ 32 <= tzOffset <= 2 ^ 32)%Z ->
  wrap64 (tzOffset * GoTime.Second) = (tzOffset * GoTime.Second)%Z.
Proof.
  intros H. unfold wrap64. change GoTime.Second with 1000000000%Z.
  change (2 ^ 63)%Z with 9223372036854775808%Z.
  change (2 ^ 64)%Z with 18446744073709551616%Z.
  change (2 ^ 32)%Z with 4294967296%Z in H.
  rewrite Z.mod_small by lia. lia.
Qed.

(** X14: for every zone offset a clock can have, the check of the local
    time zone ends normally, leaves the database alone, and logs its
    warning exactly when the offset is not eight hours. *)
Theorem timezone_warning tzName tzOffset formatOffset db :
  (- 2 ^ 32 <= tzOffset <= 2 ^ 32)%Z ->
  (checkLocalTimezone tzName tzOffset formatOffset db).1 = (Ok (), db)
  /\ ((checkLocalTimezone tzName tzOffset formatOffset db).2 = []
      <-> tzOffset = (8 * 3600)%Z).
Proof.
  intros H. unfold checkLocalTimezone.
  rewrite wrap64_seconds by assumption.
  change GoTime.Second with 1000000000%Z.
  change GoTime.Hour with 3600000000000%Z.
  destruct (decide _) as [Hne | Heq]; cbn.
  - split; [reflexivity |]. split; [discriminate | lia].
  - split; [reflexivity |]. split; [lia | reflexivity].
Qed.

Lemma timezone_warning_new_york :
  (- 2 ^ 32 <= -18000 <= 2 ^ 32)%Z
  /\ (checkLocalTimezone "EST" (-18000) (-18000) Sample.db0).2
     = [Log WarnLevel
          "expected Beijing Timezone (UTC+08), but found EST (UTC-05)"].
Proof.
  assert (H : (- 2 ^ 32 <= -18000 <= 2 ^ 32)%Z) by (split; discriminate).
  split; [exact H |].
  destruct (timezone_warning "EST" (-18000) (-18000) Sample.db0 H) as [_ Hw].
  destruct Hw as [Hw _].
  destruct (checkLocalTimezone "EST" (-18000) (-18000) Sample.db0).2 eqn:E.
  - specialize (Hw eq_refl). discriminate Hw.
  - vm_compute in E. now injection E as <- <-.
Defined.

(** An offset beyond any clock: the product wraps around to eight hours
    and the warning is lost. *)
Lemma timezone_warning_wraps :
  (checkLocalTimezone "far" (8 * 3600 + 2 ^ 55) 0 Sample.db0).2 = [].
Proof. vm_compute. reflexivity. Qed.

Lemma startup_eq fault nowDate (infoH infoP : InfoFn) tzName tzOffset
  formatOffset delay db :
  startup fault (bureaus nowDate infoH infoP) tzName tzOffset formatOffset
    delay db =
  let '(_, _, tz) := checkLocalTimezone tzName tzOffset formatOffset db in
  match (infoH "PQ0123456").2 with
  | Some e => (Exit 1, db, (tz ++ [Log FatalLevel e])%list)
  | None =>
      let '(res, db', evs) := checkDatabase fault db in
      (res, db',
       (tz ++ Log InfoLevel
                ("internet connection ok, round-trip delay " +:+ delay)
           :: evs)%list)
  end.
Proof.
  unfold startup, checkLocalTimezone, checkInternetConnection, bureaus.
  cbn [Info bureauH].
  destruct (decide _); destruct (infoH "PQ0123456") as [info [e |]];
    unfold checkFatal, emit, exit, mbind, M_bind, mret, M_ret; cbn;
    try reflexivity;
    destruct (checkDatabase fault db) as [[res db'] evs]; reflexivity.
Qed.

Lemma checkDatabase_Ok fault db :
  (checkDatabase fault db).1.1 = Ok ()
  <-> fault OpOpen = None
      /\ fault (OpCreateTable "emu_log") = None
      /\ fault (OpCount "emu_log") = None
      /\ fault (OpCreateTable "emu_qrcode") = None
      /\ fault (OpCount "emu_qrcode") = None.
Proof.
  unfold checkDatabase. run_monad.
  destruct (fault OpOpen); cbn;
    [split; [discriminate | intros [H _]; discriminate H] |].
  destruct (fault (OpCreateTable "emu_log")); cbn;
    [split; [discriminate | intros (_ & H & _); discriminate H] |].
  destruct (fault (OpCount "emu_log")); cbn;
    [split; [discriminate | intros (_ & _ & H & _); discriminate H] |].
  destruct (fault (OpCreateTable "emu_qrcode")); cbn;
    [split; [discriminate | intros (_ & _ & _ & H & _); discriminate H] |].
  destruct (fault (OpCount "emu_qrcode")); cbn;
    [split; [discriminate | intros (_ & _ & _ & _ & H); discriminate H] |].
  split; [now repeat split | reflexivity].
Qed.

Lemma checkDatabase_no_panic fault db msg :
  (checkDatabase fault db).1.1 <> Panic msg.
Proof.
  unfold checkDatabase. run_monad.
  destruct (fault OpOpen); cbn; [discriminate |].
  destruct (fault (OpCreateTable "emu_log")); cbn; [discriminate |].
  destruct (fault (OpCount "emu_log")); cbn; [discriminate |].
  destruct (fault (OpCreateTable "emu_qrcode")); cbn; [discriminate |].
  destruct (fault (OpCount "emu_qrcode")); cbn; discriminate.
Qed.

(** X15: the program reaches its loop exactly when the probe of bureau
    "H" comes back without an error and none of the five calls of
    [checkDatabase] fails; otherwise it has exited with status 1.  The
    record the probe returns, bureau "P" and the time zone play no part,
    and the database is left as it was. *)
Theorem startup_reaches_loop fault nowDate (infoH infoP : InfoFn) tzName
  tzOffset formatOffset delay db :
  ((startup fault (bureaus nowDate infoH infoP) tzName tzOffset formatOffset
      delay db).1.1 = Ok ()
   <-> (infoH "PQ0123456").2 = None
       /\ fault OpOpen = None
       /\ fault (OpCreateTable "emu_log") = None
       /\ fault (OpCount "emu_log") = None
       /\ fault (OpCreateTable "emu_qrcode") = None
       /\ fault (OpCount "emu_qrcode") = None)
  /\ ((startup fault (bureaus nowDate infoH infoP) tzName tzOffset
         formatOffset delay db).1.1 <> Ok () ->
      (startup fault (bureaus nowDate infoH infoP) tzName tzOffset
         formatOffset delay db).1.1 = Exit 1)
  /\ (startup fault (bureaus nowDate infoH infoP) tzName tzOffset
        formatOffset delay db).1.2 = db.
Proof.
  rewrite startup_eq.
  destruct (checkLocalTimezone tzName tzOffset formatOffset db)
    as [[r0 db0] tz].
  pose proof (checkDatabase_Ok fault db) as HOk.
  pose proof (checkDatabase_no_panic fault db) as HnP.
  pose proof (checkDatabase_db fault db) as Hdb.
  pose proof (checkDatabase_disciplined fault db) as Hd.
  destruct (infoH "PQ0123456").2 as [e |]; cbn [fst snd].
  { split; [| now split].
    split; [discriminate | intros [H _]; discriminate H]. }
  destruct (checkDatabase fault db) as [[res db'] evs]; cbn [fst snd] in *.
  split; [| split; [| exact Hdb]].
  - rewrite HOk. tauto.
  - intros Hne. destruct res as [[] | status | msg].
    + now destruct Hne.
    + unfold disciplined in Hd; cbn in Hd. now destruct Hd as [-> _].
    + now destruct (HnP msg).
Qed.

Lemma startup_reaches_loop_sample :
  (startup Sample.noFault
     (bureaus "2026-10-30" Sample.provider (fun _ => (∅, Some "no route")))
     "CST" 28800 28800 "35ms" Sample.db0).1.1 = Ok ().
Proof.
  apply (startup_reaches_loop Sample.noFault "2026-10-30" Sample.provider
           (fun _ => (∅, Some "no route")) "CST" 28800 28800 "35ms"
           Sample.db0).
  repeat split.
Defined.

(** X16: when the probe of bureau "H" fails, the program logs the error
    and exits with status 1 before any call on the database: after the
    warning about the time zone, if there is one, the fatal line is the
    only event. *)
Theorem probe_failure_stops_startup fault nowDate (infoH infoP : InfoFn)
  tzName tzOffset formatOffset delay db e :
  (infoH "PQ0123456").2 = Some e ->
  startup fault (bureaus nowDate infoH infoP) tzName tzOffset formatOffset
    delay db
  = (Exit 1, db,
     ((checkLocalTimezone tzName tzOffset formatOffset db).2
        ++ [Log FatalLevel e])%list).
Proof.
  intros H. rewrite startup_eq.
  destruct (checkLocalTimezone tzName tzOffset formatOffset db)
    as [[r0 db0] tz].
  destruct (infoH "PQ0123456") as [info err]. cbn [snd] in *.
  now subst err.
Qed.

Lemma probe_failure_sample :
  ((fun _ : string => (∅ : JsonObject, Some "dial tcp: timeout"))
     "PQ0123456").2 = Some "dial tcp: timeout"
  /\ startup Sample.noFault
       (bureaus "2026-10-30" (fun _ => (∅, Some "dial tcp: timeout"))
          Sample.provider)
       "CST" 28800 28800 "5s" Sample.db0
     = (Exit 1, Sample.db0, [Log FatalLevel "dial tcp: timeout"]).
Proof.
  split; [reflexivity |].
  exact (probe_failure_stops_startup Sample.noFault "2026-10-30"
           (fun _ => (∅, Some "dial tcp: timeout")) Sample.provider
           "CST" 28800 28800 "5s" Sample.db0 "dial tcp: timeout" eq_refl).
Defined.

End StartupProperties.

(** ** The requests of the provider adapters *)

Module RequestProperties.
Import Request.

Lemma escapeByte_alphabet c :
  forallb inAlphabet (list_ascii_of_string (escapeByte c)) = true.
Proof. destruct c as [[] [] [] [] [] [] [] []]; vm_compute; reflexivity. Qed.

Lemma list_ascii_app s1 s2 :
  list_ascii_of_string (s1 +:+ s2)
  = (list_ascii_of_string s1 ++ list_ascii_of_string s2)%list.
Proof.
  induction s1 as [| c s1 IH]; simpl; [reflexivity | now f_equal].
Qed.

Lemma QueryEscape_alphabet s :
  forallb inAlphabet (list_ascii_of_string (QueryEscape s)) = true.
Proof.
  induction s as [| c s IH]; [reflexivity |].
  cbn [QueryEscape]. rewrite list_ascii_app, forallb_app, IH.
  now rewrite escapeByte_alphabet.
Qed.

Lemma append_cons c s r : String c s +:+ r = String c (s +:+ r).
Proof. reflexivity. Qed.

Lemma append_nil r : "" +:+ r = r.
Proof. reflexivity. Qed.

Lemma unescape_escapeByte c rest :
  unescape (escapeByte c +:+ rest) = option_map (String c) (unescape rest).
Proof.
  destruct c as [[] [] [] [] [] [] [] []];
    match goal with
    | |- context [escapeByte ?c] =>
        let e := eval vm_compute in (escapeByte c) in
        change (escapeByte c) with e
    end;
    rewrite ?append_cons, append_nil; cbn [unescape];
    repeat match goal with
      | |- context [unhex ?x] =>
          let v := eval vm_compute in (unhex x) in change (unhex x) with v
      end;
    cbv iota;
    repeat match goal with
      | |- context [ascii_of_N ?n] =>
          let v := eval vm_compute in (ascii_of_N n) in
          change (ascii_of_N n) with v
      end;
    destruct (unescape rest); reflexivity.
Qed.

Lemma unescape_QueryEscape s : unescape (QueryEscape s) = Some s.
Proof.
  induction s as [| c s IH]; [reflexivity |].
  cbn [QueryEscape]. now rewrite unescape_escapeByte, IH.
Qed.

Lemma append_inj p x y : p +:+ x = p +:+ y -> x = y.
Proof.
  induction p as [| c p IH]; [trivial |].
  rewrite !append_cons. intros [= H]. auto.
Qed.

Lemma urlH_eq pqCode :
  urlH pqCode = apiH +:+ "?pqCode=" +:+ QueryEscape pqCode.
Proof. reflexivity. Qed.

Lemma separator_not_in_alphabet c :
  In c separators -> inAlphabet c = false.
Proof.
  unfold separators. cbn [In].
  intros [<- | [<- | [<- | [<- | [<- | [<- | []]]]]]]; reflexivity.
Qed.

(** X17: the URL bureau "H" requests is the address of the service
    followed by the one parameter [pqCode]; the scan code appears in it
    escaped, made of letters, digits and [-_.~%+] only, so that no scan
    code can end the parameter, add another one or start a fragment. *)
Theorem urlH_one_parameter pqCode :
  urlH pqCode = apiH +:+ "?pqCode=" +:+ QueryEscape pqCode
  /\ forallb inAlphabet (list_ascii_of_string (QueryEscape pqCode)) = true
  /\ forall c, In c separators ->
               ~ In c (list_ascii_of_string (QueryEscape pqCode)).
Proof.
  split; [apply urlH_eq |]. split; [apply QueryEscape_alphabet |].
  intros c Hsep Hin.
  pose proof (QueryEscape_alphabet pqCode) as H.
  rewrite forallb_forall in H. specialize (H c Hin).
  rewrite (separator_not_in_alphabet c Hsep) in H. discriminate H.
Qed.

Lemma urlH_sample :
  urlH "PQ 1&x=#2"
  = "https://g.xiuxiu365.cn/railway_api/web/index/train?pqCode=PQ+1%26x%3D%232".
Proof.
  rewrite (proj1 (urlH_one_parameter "PQ 1&x=#2")). vm_compute. reflexivity.
Defined.

(** X18: different scan codes give different URLs: escaping loses
    nothing of the scan code. *)
Theorem urlH_injective a b : a <> b -> urlH a <> urlH b.
Proof.
  intros Hne E. apply Hne.
  rewrite !urlH_eq in E. apply append_inj in E.
  apply (append_inj "?pqCode=") in E.
  assert (H : unescape (QueryEscape a) = unescape (QueryEscape b))
    by now rewrite E.
  rewrite !unescape_QueryEscape in H. now injection H.
Qed.

Lemma urlH_injective_sample :
  "PQ 1" <> "PQ+1" /\ urlH "PQ 1" <> urlH "PQ+1".
Proof.
  assert (H : "PQ 1" <> "PQ+1") by discriminate.
  split; [exact H |]. exact (urlH_injective "PQ 1" "PQ+1" H).
Defined.

Lemma hex_unreserved bytes :
  forallb (fun c => isHexDigit c && negb (shouldEscape c))
    (list_ascii_of_string (hex bytes)) = true.
Proof.
  induction bytes as [| c bytes IH]; [reflexivity |].
  cbn [hex list_ascii_of_string forallb]. rewrite IH.
  destruct c as [[] [] [] [] [] [] [] []]; vm_compute; reflexivity.
Qed.

Lemma QueryEscape_unreserved s :
  forallb (fun c => negb (shouldEscape c)) (list_ascii_of_string s) = true ->
  QueryEscape s = s.
Proof.
  induction s as [| c s IH]; [reflexivity |].
  cbn [list_ascii_of_string forallb QueryEscape].
  intros H. apply andb_prop in H as [Hc Hs]. rewrite (IH Hs).
  unfold escapeByte. apply negb_true_iff in Hc. rewrite Hc.
  destruct (Ascii.eqb_spec c " ") as [-> | _]; [discriminate Hc |].
  reflexivity.
Qed.

Lemma hex_length bytes :
  String.length (hex bytes) = (2 * String.length bytes)%nat.
Proof.
  induction bytes as [| c bytes IH]; [reflexivity |].
  cbn [hex String.length]. rewrite IH. lia.
Qed.

(** X19: the form bureau "P" posts has exactly the two fields [qrCode]
    and [sign], in that order.  The signature is two lower-case
    hexadecimal digits for each byte of the checksum of the text
    [qrcode=<scan code>&key=<secret>], and escaping leaves it as it
    is. *)
Theorem formP_two_fields (md5Sum : string -> string) qrCode :
  formP md5Sum qrCode
  = "qrCode=" +:+ QueryEscape qrCode +:+ "&sign=" +:+ sign md5Sum qrCode
  /\ sign md5Sum qrCode
     = hex (md5Sum ("qrcode=" +:+ qrCode
                    +:+ "&key=ltRsjkiM8IRbC80Ni1jzU5jiO6pJvbKd"))
  /\ String.length (sign md5Sum qrCode)
     = (2 * String.length (md5Sum (signedText qrCode)))%nat
  /\ forallb isHexDigit (list_ascii_of_string (sign md5Sum qrCode)) = true.
Proof.
  split; [| split; [reflexivity | split; [apply hex_length |]]].
  - unfold formP, Encode. cbn [flat_map map fst snd app String.concat].
    rewrite (QueryEscape_unreserved (sign md5Sum qrCode)).
    + reflexivity.
    + pose proof (hex_unreserved (md5Sum (signedText qrCode))) as H.
      rewrite forallb_forall in H. apply forallb_forall.
      intros c Hc. specialize (H c Hc). now apply andb_prop in H as [_ H].
  - pose proof (hex_unreserved (md5Sum (signedText qrCode))) as H.
    rewrite forallb_forall in H. apply forallb_forall.
    intros c Hc. specialize (H c Hc). now apply andb_prop in H as [H _].
Qed.

End RequestProperties.

(** ** Batches that run at the same time *)

Module RoundProperties.
Import Go Resolver Storage Runner StorageFacts RunnerFacts.
Import StorageProperties Batch BatchFacts Committed.

Lemma committed_app l1 l2 :
  committed (l1 ++ l2) = (committed l1 ++ committed l2)%list.
Proof. apply omap_app. Qed.

Lemma insertAll_app tbl l1 l2 :
  insertAll tbl (l1 ++ l2) = insertAll (insertAll tbl l1) l2.
Proof. apply foldl_app. Qed.

(** What one round does, read off its events; its outcome and events do
    not depend on the database it runs on. *)
Lemma processRow_effect fault b i row db :
  (processRow fault b i row db).1.2
  = {| tbl_emu_qrcode := tbl_emu_qrcode db;
       tbl_emu_log :=
         insertAll (tbl_emu_log db)
           (committed (processRow fault b i row db).2) |}.
Proof.
  destruct row as [[emuNo qrCode] id]. rewrite processRow_eq.
  destruct (fault (OpScan _ _)); [now destruct db |].
  destruct (callTrainNo b qrCode) as [[[trainNo date] err] | msg];
    [| now destruct db].
  cbn zeta. destruct (decide (trainNo = "")); [now destruct db |].
  destruct (fault (OpInsert _ _)); [now destruct db | reflexivity].
Qed.

Lemma processRow_blind fault b i row db db' :
  (processRow fault b i row db).1.1 = (processRow fault b i row db').1.1
  /\ (processRow fault b i row db).2 = (processRow fault b i row db').2.
Proof.
  destruct row as [[emuNo qrCode] id]. rewrite !processRow_eq.
  destruct (fault (OpScan _ _)); [now split |].
  destruct (callTrainNo b qrCode) as [[[trainNo date] err] | msg];
    [| now split].
  cbn zeta. destruct (decide (trainNo = "")); [now split |].
  destruct (fault (OpInsert _ _)); now split.
Qed.

Lemma iterRows_effect fault b rows :
  forall i db,
    (iterRows fault b rows i db).1.2
    = {| tbl_emu_qrcode := tbl_emu_qrcode db;
         tbl_emu_log :=
           insertAll (tbl_emu_log db)
             (committed (iterRows fault b rows i db).2) |}.
Proof.
  induction rows as [| row rest IH]; intros i db.
  - rewrite iterRows_nil. now destruct db.
  - rewrite iterRows_cons. destruct (fault (OpNext i)); [now destruct db |].
    pose proof (processRow_effect fault b i row db) as Hp.
    destruct (processRow fault b i row db) as [[res1 db1] evs1];
      cbn [fst snd] in Hp.
    destruct res1 as [u | status | msg]; try exact Hp.
    specialize (IH (S i) db1).
    destruct (iterRows fault b rest (S i) db1) as [[res2 db2] evs2];
      cbn [fst snd] in *.
    change (committed (Call (OpNext i) None :: (evs1 ++ evs2)%list))
      with (committed (evs1 ++ evs2)%list).
    rewrite committed_app, insertAll_app, IH, Hp. reflexivity.
Qed.

Lemma iterRows_blind fault b rows :
  forall i db db',
    (iterRows fault b rows i db).1.1 = (iterRows fault b rows i db').1.1
    /\ (iterRows fault b rows i db).2 = (iterRows fault b rows i db').2.
Proof.
  induction rows as [| row rest IH]; intros i db db'.
  - rewrite !iterRows_nil. now split.
  - rewrite !iterRows_cons. destruct (fault (OpNext i)); [now split |].
    destruct (processRow_blind fault b i row db db') as [Hr He].
    destruct (processRow fault b i row db) as [[res1 db1] evs1].
    destruct (processRow fault b i row db') as [[res1' db1'] evs1'].
    cbn [fst snd] in Hr, He. subst res1' evs1'.
    destruct res1 as [u | status | msg]; try now split.
    specialize (IH (S i) db1 db1').
    destruct (iterRows fault b rest (S i) db1) as [[res2 db2] evs2].
    destruct (iterRows fault b rest (S i) db1') as [[res2' db2'] evs2'].
    cbn [fst snd] in *. destruct IH as [-> ->]. now split.
Qed.

Lemma iterVehicles_effect fault b db :
  (iterVehicles fault b db).1.2
  = {| tbl_emu_qrcode := tbl_emu_qrcode db;
       tbl_emu_log :=
         insertAll (tbl_emu_log db) (committed (iterVehicles fault b db).2) |}.
Proof.
  rewrite iterVehicles_eq. cbn zeta.
  destruct (fault (OpQuery (Code b))); [now destruct db |].
  pose proof (iterRows_effect fault b
                (selectVehicles (tbl_emu_qrcode db) (Code b)) 0 db) as Hr.
  destruct (iterRows fault b _ 0 db) as [[[u | status | msg] db1] evs];
    cbn [fst snd] in *; try exact Hr.
  change (committed (?a :: ?c :: ?l)) with (committed l).
  rewrite committed_app. cbn. rewrite app_nil_r. exact Hr.
Qed.

Lemma iterVehicles_blind fault b db db' :
  tbl_emu_qrcode db = tbl_emu_qrcode db' ->
  (iterVehicles fault b db).1.1 = (iterVehicles fault b db').1.1
  /\ (iterVehicles fault b db).2 = (iterVehicles fault b db').2.
Proof.
  intros Hq. rewrite !iterVehicles_eq. cbn zeta. rewrite <- Hq.
  destruct (fault (OpQuery (Code b))); [now split |].
  destruct (iterRows_blind fault b
              (selectVehicles (tbl_emu_qrcode db) (Code b)) 0 db db')
    as [Hr He].
  destruct (iterRows fault b _ 0 db) as [[res db1] evs].
  destruct (iterRows fault b _ 0 db') as [[res' db1'] evs'].
  cbn [fst snd] in Hr, He. subst res' evs'.
  destruct res as [u | status | msg]; now split.
Qed.

(** X20: a batch reads nothing of the log table and changes the database
    through its successful inserts only: its outcome and its events are
    the same on any two databases with the same scan-code table, and the
    log table it leaves is the one it found after the inserts its events
    show as successful, in their order. *)
Theorem batch_effect fault b db db' :
  tbl_emu_qrcode db = tbl_emu_qrcode db' ->
  (iterVehicles fault b db).1.1 = (iterVehicles fault b db').1.1
  /\ (iterVehicles fault b db).2 = (iterVehicles fault b db').2
  /\ tbl_emu_log (iterVehicles fault b db).1.2
     = insertAll (tbl_emu_log db) (committed (iterVehicles fault b db).2).
Proof.
  intros Hq. destruct (iterVehicles_blind fault b db db' Hq) as [Hr He].
  split; [exact Hr |]. split; [exact He |].
  now rewrite iterVehicles_effect at 1.
Qed.

Lemma batch_effect_sample :
  tbl_emu_qrcode Sample.db0 = tbl_emu_qrcode Cases.db1
  /\ (iterVehicles Sample.noFault Sample.shanghai Sample.db0).2
     = (iterVehicles Sample.noFault Sample.shanghai Cases.db1).2
  /\ committed (iterVehicles Sample.noFault Sample.shanghai Sample.db0).2
     = [Sample.g101'].
Proof.
  assert (H : tbl_emu_qrcode Sample.db0 = tbl_emu_qrcode Cases.db1)
    by reflexivity.
  split; [exact H |].
  destruct (batch_effect Sample.noFault Sample.shanghai Sample.db0 Cases.db1 H)
    as (_ & He & _).
  split; [exact He | reflexivity].
Defined.

(** X21: the batches of two bureaus that run at the same time on one
    database: in whatever order their successful inserts reach the log
    table, the table ends with the rows it has when the second batch runs
    after the first; only the order of the rows can differ. *)
Theorem round_in_any_order fault1 b1 fault2 b2 db order :
  order ≡ₚ (committed (iterVehicles fault1 b1 db).2
            ++ committed (iterVehicles fault2 b2 db).2)%list ->
  insertAll (tbl_emu_log db) order
    ≡ₚ tbl_emu_log
         (iterVehicles fault2 b2 (iterVehicles fault1 b1 db).1.2).1.2.
Proof.
  intros Hperm.
  rewrite (iterVehicles_effect fault2 b2 (iterVehicles fault1 b1 db).1.2).
  cbn [tbl_emu_log].
  assert (Hq : tbl_emu_qrcode (iterVehicles fault1 b1 db).1.2
               = tbl_emu_qrcode db).
  { rewrite iterVehicles_effect. reflexivity. }
  destruct (iterVehicles_blind fault2 b2 _ _ Hq) as [_ ->].
  rewrite (iterVehicles_effect fault1 b1 db) at 1. cbn [tbl_emu_log].
  rewrite <- insertAll_app. now apply insertAll_perm.
Qed.

Lemma round_in_any_order_sample :
  [Cases.g7; Sample.g101']
    ≡ₚ (committed (iterVehicles Sample.noFault Sample.shanghai Sample.db0).2
        ++ committed (iterVehicles Sample.noFault Cases.beijing Sample.db0).2)
       %list
  /\ [Cases.g7; Sample.g101']
       ≡ₚ tbl_emu_log
            (iterVehicles Sample.noFault Cases.beijing
               (iterVehicles Sample.noFault Sample.shanghai
                  Sample.db0).1.2).1.2.
Proof.
  assert (H : [Cases.g7; Sample.g101']
                ≡ₚ (committed
                      (iterVehicles Sample.noFault Sample.shanghai
                         Sample.db0).2
                    ++ committed
                         (iterVehicles Sample.noFault Cases.beijing
                            Sample.db0).2)%list)
    by apply perm_swap.
  split; [exact H |].
  exact (round_in_any_order Sample.noFault Sample.shanghai Sample.noFault
           Cases.beijing Sample.db0 [Cases.g7; Sample.g101'] H).
Defined.

End RoundProperties.
